(** * Theatre: DataVerse dict atoms, the root reducer wrapper, the state
      persistor sagas and the prop-type constructors

    A shallow embedding of
      - src/shared/DataVerse/atoms/dict.tsx          (Module DictAtom)
      - src/shared/utils/redux/wrapRootReducer.tsx   (Module WrapRootReducer)
      - src/lb/statePersistor/sagas.tsx              (Module StatePersistor)
      - theatre/core/src/propTypes/index.ts          (Module PropTypes)
    over a small model of JavaScript data (Module JS) and of the lodash
    functions the sources import (Module Lodash). *)

From Stdlib Require Import String Ascii List ZArith NArith Bool Lia.
From Stdlib Require Import DecimalString DecimalN.
Import ListNotations.
Open Scope string_scope.
Set Warnings "-register-all".

(* ================================================================== *)
(** * JavaScript data *)
(* ================================================================== *)

Module JS.

(** A JS number.  A finite number is carried as an integer (array
    lengths, indices and the numbers of the examples are integers, and
    nothing below computes with fractions); the three non-finite
    doubles are constructors of their own, so that [isFinite] and
    [isNaN] are exact. *)
Inductive number : Type :=
  | Fin (z : Z)
  | NaN
  | PosInf
  | NegInf.

(** A JS value.  An object is its list of own enumerable data properties
    in own-key order; an array is dense; a function object is a
    reference [VFun f] into the table of closures of the running
    program (the table is a parameter wherever a function is called).
    The prototype chain is not part of the model. *)
Inductive value : Type :=
  | VUndefined
  | VNull
  | VBool (b : bool)
  | VNum (n : number)
  | VStr (s : string)
  | VObj (fields : list (string * value))
  | VArr (items : list value)
  | VFun (f : nat).

Definition fields := list (string * value).

(** What a JS call can do: return or throw. *)
Inductive error : Type :=
  | TypeError (what : string)
  | Error (site : string) (given : value)
  | Thrown (v : value).

Inductive result (A : Type) : Type :=
  | Ok (a : A)
  | Throw (e : error).
Arguments Ok {A} a.
Arguments Throw {A} e.

Definition bind {A B} (r : result A) (k : A -> result B) : result B :=
  match r with
  | Ok a => k a
  | Throw e => Throw e
  end.

Notation "x <- r ;; k" := (bind r (fun x => k))
  (at level 61, r at next level, right associativity).

(** The closures of the running program: [call f args]. *)
Definition closures := nat -> list value -> result value.

(** [f(args)] where [f] is any value. *)
Definition call_value (call : closures) (f : value) (args : list value)
  : result value :=
  match f with
  | VFun id => call id args
  | _ => Throw (TypeError "is not a function")
  end.

(** ** typeof, truthiness, isFinite *)

Inductive type_tag : Type :=
  | TUndefined | TObject | TBoolean | TNumber | TString | TFunction.

Definition typeof (v : value) : type_tag :=
  match v with
  | VUndefined => TUndefined
  | VNull => TObject
  | VBool _ => TBoolean
  | VNum _ => TNumber
  | VStr _ => TString
  | VObj _ => TObject
  | VArr _ => TObject
  | VFun _ => TFunction
  end.

Definition type_tag_eqb (a b : type_tag) : bool :=
  match a, b with
  | TUndefined, TUndefined | TObject, TObject | TBoolean, TBoolean
  | TNumber, TNumber | TString, TString | TFunction, TFunction => true
  | _, _ => false
  end.

Definition is_null (v : value) : bool :=
  match v with VNull => true | _ => false end.

Definition is_undefined (v : value) : bool :=
  match v with VUndefined => true | _ => false end.

(** [v !== null && typeof v === 'object'] *)
Definition is_nonnull_object (v : value) : bool :=
  negb (is_null v) && type_tag_eqb (typeof v) TObject.

(** ToBoolean *)
Definition truthy (v : value) : bool :=
  match v with
  | VUndefined | VNull => false
  | VBool b => b
  | VNum (Fin z) => negb (z =? 0)%Z
  | VNum NaN => false
  | VNum _ => true
  | VStr s => negb (s =? EmptyString)
  | VObj _ | VArr _ | VFun _ => true
  end.

(** The global [isFinite] on a value already known to be a number. *)
Definition isFinite (n : number) : bool :=
  match n with Fin _ => true | _ => false end.

Definition isNaN (n : number) : bool :=
  match n with NaN => true | _ => false end.

Definition Array_isArray (v : value) : bool :=
  match v with VArr _ => true | _ => false end.

(** ** Property keys *)

(** The decimal text of a natural number, as [String(n)] gives it. *)
Definition decimal (n : N) : string :=
  NilZero.string_of_uint (N.to_uint n).

(** An array index in the sense of ECMAScript: the canonical decimal
    text of an integer in [0, 2^32 - 2]. *)
Definition array_index (s : string) : option N :=
  match NilZero.uint_of_string s with
  | Some u =>
      let n := N.of_uint u in
      if (decimal n =? s) && (n <? 4294967295)%N then Some n else None
  | None => None
  end.

(** ** Own properties of an object *)

Fixpoint lookup (k : string) (o : fields) : option value :=
  match o with
  | [] => None
  | (k', v) :: rest => if k' =? k then Some v else lookup k rest
  end.

Definition hasOwn (o : fields) (k : string) : bool :=
  match lookup k o with Some _ => true | None => false end.

Definition own_keys (o : fields) : list string := map fst o.

Fixpoint replace (k : string) (v : value) (o : fields) : fields :=
  match o with
  | [] => []
  | (k', v') :: rest =>
      if k' =? k then (k', v) :: rest else (k', v') :: replace k v rest
  end.

(** A new array-index key goes among the index keys, which come first
    and ascending in own-key order. *)
Fixpoint insert_index (n : N) (k : string) (v : value) (o : fields)
  : fields :=
  match o with
  | [] => [(k, v)]
  | (k', v') :: rest =>
      match array_index k' with
      | Some n' =>
          if (n <? n')%N then (k, v) :: o
          else (k', v') :: insert_index n k v rest
      | None => (k, v) :: o
      end
  end.

(** [o[k] = v] on a plain object: an existing key keeps its place, a new
    one is created (index keys ascending first, then the other keys in
    creation order). *)
Definition set_field (k : string) (v : value) (o : fields) : fields :=
  if hasOwn o k then replace k v o
  else match array_index k with
       | Some n => insert_index n k v o
       | None => (o ++ [(k, v)])%list
       end.

(** [delete o[k]] *)
Fixpoint delete_field (k : string) (o : fields) : fields :=
  match o with
  | [] => []
  | (k', v) :: rest =>
      if k' =? k then delete_field k rest else (k', v) :: delete_field k rest
  end.

(** ** Own enumerable entries of any value, as [{...v}] and [Object.keys]
    see them *)

Fixpoint index_from (i : N) (items : list value) : fields :=
  match items with
  | [] => []
  | v :: rest => (decimal i, v) :: index_from (N.succ i) rest
  end.

Fixpoint chars_from (i : N) (s : string) : fields :=
  match s with
  | EmptyString => []
  | String c rest =>
      (decimal i, VStr (String c EmptyString)) :: chars_from (N.succ i) rest
  end.

Definition own_entries (v : value) : fields :=
  match v with
  | VObj o => o
  | VArr items => index_from 0 items
  | VStr s => chars_from 0 s
  | _ => []
  end.

Definition Object_keys (v : value) : list string := own_keys (own_entries v).

(** [{...target, ...source}]: every own enumerable property of [source]
    is defined on the target in own-key order. *)
Definition spread_into (target : fields) (source : value) : fields :=
  fold_left (fun acc kv => set_field (fst kv) (snd kv) acc)
            (own_entries source) target.

(** [{...a, ...b}] *)
Definition object_spread2 (a b : value) : value :=
  VObj (spread_into (spread_into [] a) b).

(** ** Reading a property: [v[k]] *)

Definition length_of (v : value) : option N :=
  match v with
  | VArr items => Some (N.of_nat (List.length items))
  | VStr s => Some (N.of_nat (String.length s))
  | _ => None
  end.

(** [v[k]] for a value that is neither null nor undefined (reading a
    property of those throws; the callers below guard it as the source
    does). *)
Definition get_prop (v : value) (k : string) : value :=
  match lookup k (own_entries v) with
  | Some x => x
  | None =>
      if k =? "length" then
        match length_of v with
        | Some n => VNum (Fin (Z.of_N n))
        | None => VUndefined
        end
      else VUndefined
  end.

(** [v[k] = x] where [v] is an object or an array.  A write past the end
    of an array leaves holes, which read as [undefined] and are stored
    as such; a named property on an array or a property on a function
    object has no place in the data model and the write is dropped. *)
Fixpoint array_set (n : nat) (x : value) (items : list value) : list value :=
  match n, items with
  | O, [] => [x]
  | O, _ :: rest => x :: rest
  | S n', [] => VUndefined :: array_set n' x []
  | S n', y :: rest => y :: array_set n' x rest
  end.

Definition set_prop (v : value) (k : string) (x : value) : value :=
  match v with
  | VObj o => VObj (set_field k x o)
  | VArr items =>
      match array_index k with
      | Some n => VArr (array_set (N.to_nat n) x items)
      | None => v
      end
  | _ => v
  end.

(** ** String(v) *)

Definition string_of_Z (z : Z) : string :=
  if (z <? 0)%Z then "-" ++ decimal (Z.to_N (- z)) else decimal (Z.to_N z).

Definition string_of_number (n : number) : string :=
  match n with
  | Fin z => string_of_Z z
  | NaN => "NaN"
  | PosInf => "Infinity"
  | NegInf => "-Infinity"
  end.

Fixpoint join (sep : string) (l : list string) : string :=
  match l with
  | [] => EmptyString
  | [s] => s
  | s :: rest => s ++ sep ++ join sep rest
  end.

(** [String(v)] (integers below 10^21 in magnitude print in full; the
    source text of a function is not data and prints as its keyword). *)
Fixpoint to_string (v : value) : string :=
  match v with
  | VUndefined => "undefined"
  | VNull => "null"
  | VBool true => "true"
  | VBool false => "false"
  | VNum n => string_of_number n
  | VStr s => s
  | VObj _ => "[object Object]"
  | VArr items =>
      join "," (map (fun x => match x with
                              | VUndefined | VNull => EmptyString
                              | _ => to_string x
                              end) items)
  | VFun _ => "function"
  end.

End JS.

(* ================================================================== *)
(** * lodash, as far as the sources call it *)
(* ================================================================== *)

Module Lodash.
Import JS.

(** The key an iteratee receives: a property name, or a number when
    lodash walks an array-like collection by index. *)
Inductive key : Type :=
  | KName (s : string)
  | KIndex (n : N).

(** ToPropertyKey of an iteratee key. *)
Definition key_name (k : key) : string :=
  match k with
  | KName s => s
  | KIndex n => decimal n
  end.

Definition MAX_SAFE_INTEGER : Z := 9007199254740991.

(** [isLength(v)]: a number that is an integer in [0, 2^53 - 1]. *)
Definition isLength (v : value) : bool :=
  match v with
  | VNum (Fin z) => (0 <=? z)%Z && (z <=? MAX_SAFE_INTEGER)%Z
  | _ => false
  end.

(** [isArrayLike(v)]: not null, not a function, and [v.length] is a
    length.  An object with a numeric own [length] property is
    array-like. *)
Definition isArrayLike (v : value) : bool :=
  match v with
  | VUndefined | VNull | VFun _ => false
  | _ => isLength (get_prop v "length")
  end.

(** [isObject(v)] *)
Definition isObject (v : value) : bool :=
  match v with
  | VObj _ | VArr _ | VFun _ => true
  | _ => false
  end.

(** The visits [(value, key)] of [forEach(collection, iteratee)], for an
    iteratee that never returns [false] (the ones in the sources return
    nothing).  An array is walked by index; so is every array-like
    collection, whatever other keys it has (lodash: objects with a
    length property are iterated like arrays); any other object is
    walked over its own keys. *)
Definition forEach (collection : value) : list (value * key) :=
  match collection with
  | VArr items =>
      map (fun i => (nth i items VUndefined, KIndex (N.of_nat i)))
          (seq 0 (List.length items))
  | _ =>
      if isArrayLike collection then
        match get_prop collection "length" with
        | VNum (Fin len) =>
            map (fun i => (get_prop collection (decimal (N.of_nat i)),
                           KIndex (N.of_nat i)))
                (seq 0 (Z.to_nat len))
        | _ => []
        end
      else
        map (fun kv => (snd kv, KName (fst kv))) (own_entries collection)
  end.

(** [mapValues(object, iteratee)]: a new object with the own enumerable
    keys of [object] (its [length], if any, is a key like the others
    here) and the iteratee's results. *)
Definition mapValues (object : value) (iteratee : value -> string -> value)
  : fields :=
  fold_left (fun acc kv => set_field (fst kv) (iteratee (snd kv) (fst kv)) acc)
            (own_entries object) [].

(** ** Paths *)

(** [toKey(v)] *)
Definition toKey (v : value) : string := to_string v.

(** [castPath(v, object)]: an array is a path of keys, anything else is
    one key.  This is lodash for every array, and for every string that
    is [one_key] below; a string written in lodash's path syntax that
    is not itself a property of the object is split by lodash into
    several keys, which is not followed. *)
Definition castPath (v : value) : list string :=
  match v with
  | VArr items => map toKey items
  | _ => [toKey v]
  end.

Definition nullish (v : value) : bool :=
  match v with VUndefined | VNull => true | _ => false end.

Fixpoint walk (object : value) (path : list string) : option value :=
  match path with
  | [] => Some object
  | k :: rest =>
      if nullish object then None else walk (get_prop object k) rest
  end.

(** [baseGet(object, path)].  The properties are read by [get_prop],
    own properties only: this is lodash along every path whose keys are
    [own_or_absent] below at the object they are read from; a property
    that is found on the prototype chain is not followed. *)
Definition baseGet (object : value) (path : list string) : value :=
  match path with
  | [] => VUndefined
  | _ => match walk object path with
         | Some v => v
         | None => VUndefined
         end
  end.

(** [key in Object(v)], own properties and [length] only: this is
    lodash for every key that is [own_or_absent] below; a key that is
    found on the prototype chain is not followed. *)
Definition has_key (v : value) (k : string) : bool :=
  hasOwn (own_entries v) k
  || ((k =? "length") && match length_of v with Some _ => true | None => false end).

Fixpoint hasPath (object : value) (path : list string) : bool :=
  match path with
  | [] => true
  | k :: rest =>
      negb (nullish object) && has_key object k
      && hasPath (get_prop object k) rest
  end.

(** [hasIn(object, path)] *)
Definition hasIn (object : value) (path : list string) : bool :=
  match path with
  | [] => false
  | _ => hasPath object path
  end.

(** [isIndex(k)] for a key given as text: canonical decimal below
    2^53 - 1. *)
Definition isIndex (k : string) : bool :=
  match NilZero.uint_of_string k with
  | Some u =>
      let n := N.of_uint u in
      (decimal n =? k) && (Z.of_N n <? MAX_SAFE_INTEGER)%Z
  | None => false
  end.

(** [baseSet(object, path, x)]: creates what is missing on the way, an
    array where the next key is an index and an object otherwise. *)
Fixpoint baseSet (object : value) (path : list string) (x : value) : value :=
  if negb (isObject object) then object
  else
    match path with
    | [] => object
    | k :: rest =>
        match rest with
        | [] => set_prop object k x
        | k2 :: _ =>
            let objValue := get_prop object k in
            let child :=
              if isObject objValue then objValue
              else if isIndex k2 then VArr [] else VObj [] in
            set_prop object k (baseSet child rest x)
        end
    end.

(** One path of [pick]: it is copied to the result when it is in the
    object. *)
Definition pick_path (object result p : value) : value :=
  let path := castPath p in
  if hasIn object path then baseSet result path (baseGet object path)
  else result.

(** [pick(object, paths)] with the paths given as one array. *)
Definition pick (object : value) (paths : list value) : value :=
  if nullish object then VObj []
  else fold_left (pick_path object) paths (VObj []).

(** ** The keys that the model follows *)

(** The properties that a plain object inherits from
    [Object.prototype]. *)
Definition Object_prototype_names : list string :=
  ["constructor"; "__defineGetter__"; "__defineSetter__"; "hasOwnProperty";
   "__lookupGetter__"; "__lookupSetter__"; "isPrototypeOf";
   "propertyIsEnumerable"; "toString"; "valueOf"; "__proto__";
   "toLocaleString"].

Definition inherited_by_plain_object (k : string) : bool :=
  existsb (String.eqb k) Object_prototype_names.

(** [object[k]] is an own property of the object or [undefined], and
    [k in Object(object)] says whether it is an own property: [k] is a
    property of the object in the model, or the object is a plain
    object and does not inherit [k]. *)
Definition own_or_absent (object : value) (k : string) : bool :=
  has_key object k
  || (match object with VObj _ => true | _ => false end
      && negb (inherited_by_plain_object k)).

(** A dot or an opening bracket, with which lodash's path syntax is
    written. *)
Fixpoint has_path_syntax (k : string) : bool :=
  match k with
  | EmptyString => false
  | String c rest =>
      (Ascii.eqb c "."%char) || (Ascii.eqb c "["%char) || has_path_syntax rest
  end.

(** [castPath(k, object)] is the one key [k]: [k] is a property of the
    object, or is not written in path syntax. *)
Definition one_key (object : value) (k : string) : bool :=
  has_key object k || negb (has_path_syntax k).

(** The keys under which [baseSet] stores nothing in the versions of
    lodash that guard the prototypes; under every other key the model
    stores as every version does. *)
Definition unsafe_key (k : string) : bool :=
  (k =? "__proto__") || (k =? "constructor") || (k =? "prototype").

(** A string that [pick] and [update] take for one key of the object
    and read and store as the model does. *)
Definition top_level_key (object : value) (k : string) : bool :=
  negb (unsafe_key k) && own_or_absent object k && one_key object k.

(** [fp.update(path, updater, object)]: the immutable update of
    lodash/fp.  The updater is applied to the value at the path and the
    result is set there in a copy of [Object(object)]; something that
    is not callable is replaced by the identity.  (The wrapper object
    that [Object] makes of a primitive is taken as an empty object.) *)
Definition to_object (v : value) : value :=
  match v with
  | VObj _ | VArr _ => v
  | _ => VObj []
  end.

Definition fp_update (call : closures) (path updater object : value)
  : result value :=
  let p := castPath path in
  let o := to_object object in
  let old := baseGet o p in
  x <- match updater with
       | VFun f => call f [old]
       | _ => Ok old
       end ;;
  Ok (baseSet o p x).

End Lodash.

(* ================================================================== *)
(** * src/shared/DataVerse/atoms/dict.tsx *)
(* ================================================================== *)

Module DictAtom.
Import JS Lodash.

(** [DictAtomChangeType<O>] *)
Record change : Type := mkChange {
  overriddenRefs : value;
  deletedKeys : list key;
  addedKeys : list key
}.

(** A [DictAtom]: its [_internalMap], and what it inherits from
    [AbstractCompositeAtom]: the values it has adopted, the number of
    tappers of its change emitter, and the events emitted so far. *)
Record atom : Type := mkAtom {
  _internalMap : fields;
  adopted : fields;
  tappers : nat;
  emitted : list change
}.

Definition with_map (m : fields) (a : atom) : atom :=
  mkAtom m (adopted a) (tappers a) (emitted a).

(** Modelled from the spec: [AbstractCompositeAtom._adopt], which is not
    among the sources.  Adopting a value makes the atom its owner under
    the key; no event is emitted. *)
Definition _adopt (k : key) (v : value) (a : atom) : atom :=
  mkAtom (_internalMap a) (set_field (key_name k) v (adopted a))
         (tappers a) (emitted a).

(** Modelled from the spec: [AbstractCompositeAtom._unadopt], which is
    not among the sources.  The atom stops owning the value under the
    key; no event is emitted. *)
Definition _unadopt (k : key) (v : value) (a : atom) : atom :=
  mkAtom (_internalMap a) (delete_field (key_name k) (adopted a))
         (tappers a) (emitted a).

(** Modelled from the spec: the change emitter of
    [AbstractCompositeAtom], which is not among the sources.
    [hasTappers] says whether a listener is registered, [emit] delivers
    one event, [tap] registers a listener. *)
Definition hasTappers (a : atom) : bool := negb (Nat.eqb (tappers a) 0).

Definition emit (c : change) (a : atom) : atom :=
  mkAtom (_internalMap a) (adopted a) (tappers a) (emitted a ++ [c])%list.

Definition tap (a : atom) : atom :=
  mkAtom (_internalMap a) (adopted a) (S (tappers a)) (emitted a).

(** [prop(key)] *)
Definition prop (a : atom) (k : key) : value :=
  if hasOwn (_internalMap a) (key_name k)
  then match lookup (key_name k) (_internalMap a) with
       | Some v => v
       | None => VUndefined
       end
  else VUndefined.

(** [keys()] *)
Definition keys (a : atom) : list string := own_keys (_internalMap a).

(** The body of the last loop of [_change], which is also the body of
    the loop of [_assignInitialValue]:
    [this._internalMap[k] = v; this._adopt(k, v)]. *)
Definition keep (a : atom) (vk : value * key) : atom :=
  _adopt (snd vk) (fst vk)
         (with_map (set_field (key_name (snd vk)) (fst vk) (_internalMap a)) a).

(** [_assignInitialValue(o)] *)
Definition _assignInitialValue (o : value) (a : atom) : atom :=
  fold_left keep (forEach o) a.

(** [new DictAtom(o)] *)
Definition constructor (o : value) : atom :=
  _assignInitialValue o (mkAtom [] [] 0 []).

(** [_change(o, keysToDelete)] *)
Definition _change (o : value) (keysToDelete : list key) (a : atom) : atom :=
  let addedKeys :=
    map snd
        (filter (fun vk => negb (hasOwn (_internalMap a) (key_name (snd vk))))
                (forEach o)) in
  let overriddenRefs0 := mapValues o (fun _ k => prop a (KName k)) in
  let deletedKeys := keysToDelete in
  let overriddenRefs :=
    fold_left (fun acc propName =>
                 set_field (key_name propName) (prop a propName) acc)
              deletedKeys overriddenRefs0 in
  let a1 :=
    fold_left (fun acc vk =>
                 if truthy (fst vk) then _unadopt (snd vk) (fst vk) acc
                 else acc)
              (forEach (VObj overriddenRefs)) a in
  let a2 :=
    fold_left (fun acc k =>
                 with_map (delete_field (key_name k) (_internalMap acc)) acc)
              deletedKeys a1 in
  let a3 := fold_left keep (forEach o) a2 in
  if hasTappers a3
  then emit (mkChange o deletedKeys addedKeys) a3
  else a3.

(** [assign(o)] *)
Definition assign (o : value) (a : atom) : atom := _change o [] a.

(** [setProp(key, value)] *)
Definition setProp (k : string) (v : value) (a : atom) : atom :=
  assign (VObj [(k, v)]) a.

(** [deleteProp(key)] *)
Definition deleteProp (k : key) (a : atom) : atom := _change (VObj []) [k] a.

End DictAtom.

(* ================================================================== *)
(** * src/shared/utils/redux/wrapRootReducer.tsx *)
(* ================================================================== *)

Module WrapRootReducer.
Import JS Lodash.

(** [Reducer<State, Action>]: a function of the state and the action; as
    any JS function it may throw. *)
Definition Reducer := value -> value -> result value.

(** Modelled from the spec: ./commonActions, which is not among the
    sources.  Each of the four generic actions has a [type] string, and
    its action creator builds the object [{type, payload}]. *)
Record ActionTypes : Type := mkActionTypes {
  mergeStateAction_type : string;
  setStateAction_type : string;
  resetStateAction_type : string;
  multiReduceStateAction_type : string
}.

Definition action_of (type : string) (payload : value) : value :=
  VObj [("type", VStr type); ("payload", payload)].

(** The four types are four different strings. *)
Definition distinct (t : ActionTypes) : Prop :=
  mergeStateAction_type t <> setStateAction_type t /\
  mergeStateAction_type t <> resetStateAction_type t /\
  mergeStateAction_type t <> multiReduceStateAction_type t /\
  setStateAction_type t <> resetStateAction_type t /\
  setStateAction_type t <> multiReduceStateAction_type t /\
  resetStateAction_type t <> multiReduceStateAction_type t.

Section Wrap.

Variable call : closures.
Variable types : ActionTypes.
Variable reducer : Reducer.

Definition mergeStateAction := action_of (mergeStateAction_type types).
Definition setStateAction := action_of (setStateAction_type types).
Definition resetStateAction := action_of (resetStateAction_type types).

(** [action.type === t] *)
Definition has_type (action : value) (t : string) : bool :=
  match get_prop action "type" with
  | VStr s => s =? t
  | _ => false
  end.

(** The guard on the state, as written:
    [!(state !== null && typeof state === 'object') ||
     typeof state === 'undefined'] *)
Definition bad_state (state : value) : bool :=
  negb (negb (is_null state) && type_tag_eqb (typeof state) TObject)
  || type_tag_eqb (typeof state) TUndefined.

(** [state || {}] *)
Definition state_or_empty (state : value) : value :=
  if truthy state then state else VObj [].

(** One step of [pairs.reduce]:
    [update(pair.path, pair.reducer, acc)] *)
Definition reduce_pair (acc : result value) (pair : value) : result value :=
  a <- acc ;;
  if nullish pair then Throw (TypeError "cannot read a property of a pair")
  else fp_update call (get_prop pair "path") (get_prop pair "reducer") a.

Definition wrapRootReducer (state action : value) : result value :=
  if type_tag_eqb (typeof action) TObject && negb (is_null action) then
    let payload := get_prop action "payload" in
    (* mergeStateAction *)
    if has_type action (mergeStateAction_type types) then
      if negb (negb (is_null payload) && type_tag_eqb (typeof payload) TObject)
      then Throw (Error ("Action " ++ mergeStateAction_type types
                         ++ "'s payload must only be an object.") payload)
      else if bad_state state
      then Throw (Error ("When dispatching a " ++ mergeStateAction_type types
                         ++ ", the initial state must either be an object or void.")
                        state)
      else Ok (object_spread2 (state_or_empty state) payload)
    (* setStateAction *)
    else if has_type action (setStateAction_type types) then
      Ok payload
    (* resetStateAction *)
    else if has_type action (resetStateAction_type types) then
      initialState <- reducer VUndefined action ;;
      if bad_state state
      then Throw (Error ("When dispatching a " ++ resetStateAction_type types
                         ++ ", the initial state must either be an object or void.")
                        state)
      else
        match payload with
        | VArr paths =>
            Ok (object_spread2 (state_or_empty state) (pick initialState paths))
        | _ => Ok initialState
        end
    (* multiReduceStateAction *)
    else if has_type action (multiReduceStateAction_type types) then
      match payload with
      | VArr pairs => fold_left reduce_pair pairs (Ok state)
      | _ => Throw (TypeError "pairs.reduce is not a function")
      end
    (* fallback to inner reducer *)
    else reducer state action
  (* fallback to inner reducer *)
  else reducer state action.

End Wrap.


End WrapRootReducer.

(* ================================================================== *)
(** * src/lb/statePersistor/sagas.tsx *)
(* ================================================================== *)

Module StatePersistor.
Import JS Lodash.

(** ** Generators as effect trees *)

(** What a saga yields to the redux-saga middleware. *)
Inductive effect : Type :=
  | Call_pathExists (path : string)
  | Call_readFile (path : string)
  | Call_ensureFile (path : string)
  | Call_writeFile (path : string) (content : string)
  | Select
  | Put (action : value)
  | Delay (ms : Z).

(** What a saga does between two yields besides computing: it writes to
    the console, or reads or writes the variable [lastState] that the
    handler of [persistStateChanges] closes over. *)
Inductive sync : Type :=
  | Console_error (msg : string)
  | Read_lastState
  | Write_lastState (v : value).

(** A generator: it returns, or yields an effect and goes on with the
    value the middleware resumes it with, or does a synchronous step. *)
Inductive saga : Type :=
  | Return (v : value)
  | Yield (e : effect) (k : value -> saga)
  | Step (s : sync) (k : value -> saga).

(** [yield call(generatorFunction, ...)]: the callee runs in place and
    the caller goes on with what it returns. *)
Fixpoint seq_saga (s : saga) (k : value -> saga) : saga :=
  match s with
  | Return v => k v
  | Yield e k' => Yield e (fun x => seq_saga (k' x) k)
  | Step o k' => Step o (fun x => seq_saga (k' x) k)
  end.

(** ** The world a saga runs in *)

Record world : Type := mkWorld {
  files : list (string * string);     (* the file system: path, content *)
  store : value;                      (* the state of the redux store *)
  dispatched : list value;            (* the actions put so far *)
  console : list string;              (* console.error lines *)
  lastState : value;                  (* the closure variable of the watcher *)
  writes : list (string * string)     (* writeFile calls made so far *)
}.

Fixpoint file_content (path : string) (fs : list (string * string))
  : option string :=
  match fs with
  | [] => None
  | (p, c) :: rest => if p =? path then Some c else file_content path rest
  end.

Fixpoint file_write (path content : string) (fs : list (string * string))
  : list (string * string) :=
  match fs with
  | [] => [(path, content)]
  | (p, c) :: rest =>
      if p =? path then (p, content) :: rest
      else (p, c) :: file_write path content rest
  end.

(** The outcome of one effect: the value the generator is resumed with,
    or the error thrown into it. *)
Section Middleware.

(** The root reducer of the store the sagas are attached to. *)
Variable rootReducer : value -> value -> value.

Definition perform (e : effect) (w : world) : result value * world :=
  match e with
  | Call_pathExists p =>
      (Ok (VBool (match file_content p (files w) with
                  | Some _ => true
                  | None => false
                  end)), w)
  | Call_readFile p =>
      match file_content p (files w) with
      | Some c => (Ok (VStr c), w)
      | None => (Throw (Error "ENOENT" (VStr p)), w)
      end
  | Call_ensureFile p =>
      match file_content p (files w) with
      | Some _ => (Ok VUndefined, w)
      | None =>
          (Ok VUndefined,
           mkWorld (file_write p EmptyString (files w)) (store w) (dispatched w)
                   (console w) (lastState w) (writes w))
      end
  | Call_writeFile p c =>
      (Ok VUndefined,
       mkWorld (file_write p c (files w)) (store w) (dispatched w)
               (console w) (lastState w) (writes w ++ [(p, c)])%list)
  | Select => (Ok (store w), w)
  | Put a =>
      (Ok a,
       mkWorld (files w) (rootReducer (store w) a)
               (dispatched w ++ [a])%list (console w) (lastState w) (writes w))
  | Delay _ => (Ok (VBool true), w)
  end.

Definition perform_sync (s : sync) (w : world) : value * world :=
  match s with
  | Console_error msg =>
      (VUndefined,
       mkWorld (files w) (store w) (dispatched w)
               (console w ++ [msg])%list (lastState w) (writes w))
  | Read_lastState => (lastState w, w)
  | Write_lastState v =>
      (VUndefined,
       mkWorld (files w) (store w) (dispatched w) (console w) v (writes w))
  end.

(** A saga run on its own from start to end, every effect answered as
    soon as it is yielded.  An error thrown into the generator is not
    caught by it (no yield of the sources is inside a try) and ends the
    run. *)
Fixpoint run (s : saga) (w : world) : result value * world :=
  match s with
  | Return v => (Ok v, w)
  | Yield e k =>
      match perform e w with
      | (Ok x, w') => run (k x) w'
      | (Throw err, w') => (Throw err, w')
      end
  | Step o k =>
      let (x, w') := perform_sync o w in run (k x) w'
  end.

End Middleware.

(** ** The sagas *)

Section Sagas.

(** [pathToPersistenceFile]: fixed when the module is loaded, from the
    environment. *)
Variable pathToPersistenceFile : string.

(** [JSON.parse] and [JSON.stringify] *)
Variable JSON_parse : string -> result value.
Variable JSON_stringify : value -> string.

(** The deep-equal package. *)
Variable deepEqual : value -> value -> bool.

(** $lb/common/actions, which is not among the sources: the action
    [bootstrapAction()] and the action creator [setStateAction]. *)
Variable bootstrapAction : value.
Variable setStateAction : value -> value.

(** $src/shared/utils/spreadPaths, which is not among the sources:
    [spreadPaths(paths, from, to)]. *)
Variable spreadPaths : value -> value -> value -> value.

Definition whitelistOfPartsOfStateToPersist : value :=
  VArr [VArr [VStr "projects"; VStr "listOfPaths"]].

(** [pickPathsFromObject(state, whitelistOfPartsOfStateToPersist)] *)
Definition pickPathsFromObject (state : value) : value :=
  match whitelistOfPartsOfStateToPersist with
  | VArr paths => pick state paths
  | _ => VObj []
  end.

Definition could_not_parse : string :=
  "could not parse json content in state file '"
  ++ pathToPersistenceFile ++ "'".

Definition _loadState : saga :=
  Yield (Call_pathExists pathToPersistenceFile) (fun fileExists =>
  if negb (truthy fileExists) then Yield (Put bootstrapAction) Return
  else
  Yield (Call_readFile pathToPersistenceFile) (fun content =>
  match JSON_parse (to_string content) with
  | Throw _ =>
      Step (Console_error could_not_parse) (fun _ =>
      Yield (Put bootstrapAction) Return)
  | Ok jsonData =>
      Yield Select (fun oldState =>
      let newState :=
        spreadPaths whitelistOfPartsOfStateToPersist jsonData oldState in
      Yield (Put (setStateAction newState)) (fun _ =>
      Yield (Put bootstrapAction) Return))
  end)).

Definition persistNewState (newState : value) : saga :=
  Yield (Call_ensureFile pathToPersistenceFile) (fun _ =>
  let stringified := JSON_stringify newState in
  Yield (Call_writeFile pathToPersistenceFile stringified) (fun _ =>
  Return VUndefined)).

(** The first statement of [persistStateChanges]:
    [let lastState = pickPathsFromObject(yield select(), ...)] *)
Definition persistStateChanges_init : saga :=
  Yield Select (fun state =>
  Step (Write_lastState (pickPathsFromObject state)) Return).

(** The generator that [persistStateChanges] hands to [takeLatest]. *)
Definition onAction : saga :=
  Yield (Delay 2) (fun _ =>
  Yield Select (fun state =>
  let newState := pickPathsFromObject state in
  Step Read_lastState (fun last =>
  if negb (deepEqual last newState) then
    seq_saga (persistNewState newState) (fun _ =>
    Step (Write_lastState newState) (fun _ =>
    Return VUndefined))
  else Return VUndefined))).

(** ** takeLatest *)

(** [takeLatest('*', onAction)]: every dispatched action forks
    [onAction] and cancels the task forked for the action before, if it
    still runs.  A task runs until it yields an asynchronous effect (a
    delay or a call into the file system); the call is made at once,
    and the task is resumed when it completes.  [select] and [put] are
    answered at once. *)

Variable rootReducer : value -> value -> value.

Definition asynchronous (e : effect) : bool :=
  match e with
  | Select | Put _ => false
  | _ => true
  end.

(** A task, run until it waits or ends; [Some k] is the rest of a task
    that waits. *)
Fixpoint advance (s : saga) (w : world) : option (value -> saga) * world :=
  match s with
  | Return _ => (None, w)
  | Yield e k =>
      match perform rootReducer e w with
      | (Ok x, w') =>
          if asynchronous e then (Some (fun _ => k x), w')
          else advance (k x) w'
      | (Throw _, w') => (None, w')
      end
  | Step o k =>
      let (x, w') := perform_sync o w in advance (k x) w'
  end.

Inductive event : Type :=
  | Dispatched (action : value)   (* an action reaches the store *)
  | Completed.                    (* what the running task waits for is over *)

(** The watcher: the world and the task of the latest action, if it
    still runs. *)
Definition watcher : Type := (option (value -> saga) * world)%type.

Definition on_event (wt : watcher) (ev : event) : watcher :=
  let (task, w) := wt in
  match ev with
  | Dispatched a =>
      let w' := mkWorld (files w) (rootReducer (store w) a) (dispatched w)
                        (console w) (lastState w) (writes w) in
      (* the task of the action before is cancelled, a new one starts *)
      advance onAction w'
  | Completed =>
      match task with
      | Some k => advance (k VUndefined) w
      | None => (None, w)
      end
  end.

Definition on_events (wt : watcher) (evs : list event) : watcher :=
  fold_left on_event evs wt.

End Sagas.

End StatePersistor.

(* ================================================================== *)
(** * theatre/core/src/propTypes/index.ts *)
(* ================================================================== *)

Module PropTypes.
Import JS.

(** ** What the constructors read of their arguments *)

(** [Object.prototype.hasOwnProperty.call(v, k)] *)
Definition hasOwnProperty (v : value) (k : string) : bool :=
  hasOwn (own_entries v) k.

(** [opts?.k] *)
Definition opt_get (opts : value) (k : string) : value :=
  match opts with
  | VUndefined | VNull => VUndefined
  | _ => get_prop opts k
  end.

(** [a ?? b] *)
Definition nullish_or {A} (a : value) (given : value -> A) (b : A) : A :=
  match a with
  | VUndefined | VNull => b
  | _ => given a
  end.

(** White space in the sense of [String.prototype.trim], among the
    8-bit characters. *)
Definition is_space (c : ascii) : bool :=
  let n := nat_of_ascii c in
  ((9 <=? n) && (n <=? 13) || (n =? 32) || (n =? 160))%nat.

Fixpoint trim_start (s : string) : string :=
  match s with
  | EmptyString => EmptyString
  | String c rest => if is_space c then trim_start rest else s
  end.

Fixpoint rev_string (acc s : string) : string :=
  match s with
  | EmptyString => acc
  | String c rest => rev_string (String c acc) rest
  end.

Definition trim (s : string) : string :=
  rev_string EmptyString (trim_start (rev_string EmptyString (trim_start s))).

(** [a >= b] on numbers *)
Definition num_lt (a b : number) : bool :=
  match a, b with
  | NaN, _ | _, NaN => false
  | Fin x, Fin y => (x <? y)%Z
  | NegInf, NegInf => false
  | NegInf, _ => true
  | _, NegInf => false
  | PosInf, _ => false
  | _, PosInf => true
  end.

Definition num_ge (a b : number) : bool :=
  negb (isNaN a) && negb (isNaN b) && negb (num_lt a b).

(** [process.env.NODE_ENV]: the checks below run when it is not
    ['production']. *)
Inductive NODE_ENV : Type :=
  | production
  | development.

Definition checked (env : NODE_ENV) : bool :=
  match env with production => false | development => true end.

(** ** validateCommonOpts *)

Definition validateCommonOpts (env : NODE_ENV) (fnCallSignature : string)
  (opts : value) : result unit :=
  if checked env then
    if is_undefined opts then Ok tt
    else if negb (type_tag_eqb (typeof opts) TObject) || is_null opts then
      Throw (Error ("opts in " ++ fnCallSignature
                    ++ " must either be undefined or an object.") opts)
    else if hasOwnProperty opts "label" then
      let label := get_prop opts "label" in
      match label with
      | VStr l =>
          if negb (String.length (trim l) =? String.length l)%nat then
            Throw (Error ("opts.label in " ++ fnCallSignature
                          ++ " should not start/end with whitespace.") label)
          else if (String.length l =? 0)%nat then
            Throw (Error ("opts.label in " ++ fnCallSignature
                          ++ " should not be an empty string.") label)
          else Ok tt
      | _ =>
          Throw (Error ("opts.label in " ++ fnCallSignature
                        ++ " should be a string.") label)
      end
    else Ok tt
  else Ok tt.

(** ** The configs *)

(** The primitive prop types are modelled: [number], [rgba], [boolean],
    [string] and [stringLiteral].  ([compound] rests on
    [sanitizeCompoundProps] of ./internals, which is not among the
    sources.) *)

(** A function-valued field of a config: one of the functions of this
    module, or whatever the caller gave in [opts]. *)
Inductive fn : Type :=
  | Builtin (name : string)
  | Given (v : value).

Definition Sanitizer := value -> result value.

(** [PropTypeConfig_Number] *)
Record PropTypeConfig_Number : Type := mkNumber {
  number_type : value;
  number_valueType : value;
  number_default : value;
  number_brand : string;           (* [propTypeSymbol] *)
  number_range : value;
  number_label : value;
  number_nudgeFn : fn;
  number_nudgeMultiplier : value;
  number_isScalar : bool;
  number_sanitize : Sanitizer;
  number_interpolate : fn
}.

(** The other primitive configs have the fields of [IBasePropType] and
    a [type]; [stringLiteral] adds [options] and [as]. *)
Record PropTypeConfig : Type := mkConfig {
  type : string;
  default : value;
  valueType : value;
  brand : string;                  (* [propTypeSymbol] *)
  label : value;
  sanitize : Sanitizer;
  interpolate : fn;
  options : fields;
  as_ : value
}.

(** ** number *)

Definition _sanitizeNumber (v : value) : value :=
  match v with
  | VNum n => if isFinite n then v else VUndefined
  | _ => VUndefined
  end.

(** The checks of [number] on [opts.range] *)
Definition validate_range (range : value) : result unit :=
  match range with
  | VArr items =>
      if negb (List.length items =? 2)%nat then
        Throw (Error "opts.range in t.number(defaultValue, opts) must have two elements."
                     range)
      else if negb (forallb (fun n => match n with
                                      | VNum x => negb (isNaN x)
                                      | _ => false
                                      end) items) then
        Throw (Error "opts.range in t.number(defaultValue, opts) must be a tuple of two numbers."
                     range)
      else
        match items with
        | [VNum lo; VNum hi] =>
            if num_ge lo hi then
              Throw (Error "opts.range[0] in t.number(defaultValue, opts) must be smaller than opts.range[1]."
                           range)
            else Ok tt
        | _ => Ok tt
        end
  | _ =>
      Throw (Error "opts.range in t.number(defaultValue, opts) must be a tuple of two numbers."
                   range)
  end.

Definition validate_number (env : NODE_ENV) (defaultValue opts : value)
  : result unit :=
  if checked env then
    _ <- validateCommonOpts env "t.number(defaultValue, opts)" opts ;;
    _ <- match defaultValue with
         | VNum n =>
             if isFinite n then Ok tt
             else Throw (Error "Argument defaultValue in t.number(defaultValue) must be a number."
                               defaultValue)
         | _ => Throw (Error "Argument defaultValue in t.number(defaultValue) must be a number."
                             defaultValue)
         end ;;
    if type_tag_eqb (typeof opts) TObject && negb (is_null opts) then
      _ <- (if hasOwnProperty opts "range"
            then validate_range (get_prop opts "range") else Ok tt) ;;
      _ <- (if hasOwnProperty opts "nudgeMultiplier" then
              match get_prop opts "nudgeMultiplier" with
              | VNum (Fin _) => Ok tt
              | x => Throw (Error "opts.nudgeMultiplier in t.number(defaultValue, opts) must be a finite number."
                                  x)
              end
            else Ok tt) ;;
      if hasOwnProperty opts "nudgeFn" then
        match opt_get opts "nudgeFn" with
        | VFun _ => Ok tt
        | x => Throw (Error "opts.nudgeFn in t.number(defaultValue, opts) must be a function."
                            x)
        end
      else Ok tt
    else Ok tt
  else Ok tt.

(** [...(opts ? opts : {})] comes after [type], [valueType] and
    [default] in the object literal: an own property of [opts] of that
    name replaces the one written before it. *)
Definition spread_over (opts : value) (k : string) (written : value) : value :=
  if truthy opts then
    match lookup k (own_entries opts) with
    | Some v => v
    | None => written
    end
  else written.

Definition number (call : closures) (env : NODE_ENV)
  (defaultValue opts : value) : result PropTypeConfig_Number :=
  _ <- validate_number env defaultValue opts ;;
  let sanitize : Sanitizer :=
    if negb (truthy (opt_get opts "sanitize")) then
      fun val => Ok (_sanitizeNumber val)
    else
      fun val =>
        let n := _sanitizeNumber val in
        if type_tag_eqb (typeof n) TNumber
        then call_value call (get_prop opts "sanitize") [n]
        else Ok VUndefined in
  Ok {| number_type := spread_over opts "type" (VStr "number");
        number_valueType := spread_over opts "valueType" (VNum (Fin 0));
        number_default := spread_over opts "default" defaultValue;
        number_brand := "TheatrePropType";
        number_range := spread_over opts "range" VUndefined;
        number_label := opt_get opts "label";
        number_nudgeFn :=
          nullish_or (opt_get opts "nudgeFn") Given
                     (Builtin "defaultNumberNudgeFn");
        number_nudgeMultiplier :=
          match opt_get opts "nudgeMultiplier" with
          | VNum x => VNum x
          | _ => VNum (Fin 1)
          end;
        number_isScalar := true;
        number_sanitize := sanitize;
        number_interpolate :=
          nullish_or (opt_get opts "interpolate") Given
                     (Builtin "_interpolateNumber") |}.

(** ** rgba *)

Definition _sanitizeRgba (val : value) : value := val.

Definition rgba (env : NODE_ENV) (defaultValue opts : value)
  : result PropTypeConfig :=
  _ <- (if checked env
        then validateCommonOpts env "t.rgba(defaultValue, opts)" opts
        else Ok tt) ;;
  Ok {| type := "rgba";
        valueType := VNull;
        default := defaultValue;
        brand := "TheatrePropType";
        label := opt_get opts "label";
        sanitize := fun val => Ok (_sanitizeRgba val);
        interpolate :=
          nullish_or (opt_get opts "interpolate") Given
                     (Builtin "_interpolateRgba");
        options := [];
        as_ := VUndefined |}.

(** ** boolean *)

Definition _sanitizeBoolean (val : value) : value :=
  match val with VBool _ => val | _ => VUndefined end.

Definition boolean (env : NODE_ENV) (defaultValue opts : value)
  : result PropTypeConfig :=
  _ <- (if checked env then
          _ <- validateCommonOpts env "t.boolean(defaultValue, opts)" opts ;;
          match defaultValue with
          | VBool _ => Ok tt
          | _ => Throw (Error "defaultValue in t.boolean(defaultValue) must be a boolean."
                              defaultValue)
          end
        else Ok tt) ;;
  Ok {| type := "boolean";
        default := defaultValue;
        valueType := VNull;
        brand := "TheatrePropType";
        label := opt_get opts "label";
        sanitize := fun val => Ok (_sanitizeBoolean val);
        interpolate := Builtin "leftInterpolate";
        options := [];
        as_ := VUndefined |}.

(** ** string *)

Definition string_ (call : closures) (env : NODE_ENV)
  (defaultValue opts : value) : result PropTypeConfig :=
  _ <- (if checked env then
          _ <- validateCommonOpts env "t.string(defaultValue, opts)" opts ;;
          match defaultValue with
          | VStr _ => Ok tt
          | _ => Throw (Error "defaultValue in t.string(defaultValue) must be a string."
                              defaultValue)
          end
        else Ok tt) ;;
  Ok {| type := "string";
        default := defaultValue;
        valueType := VNull;
        brand := "TheatrePropType";
        label := opt_get opts "label";
        sanitize := fun val =>
          if truthy (opt_get opts "sanitize")
          then call_value call (get_prop opts "sanitize") [val]
          else match val with VStr _ => Ok val | _ => Ok VUndefined end;
        interpolate :=
          nullish_or (opt_get opts "interpolate") Given
                     (Builtin "leftInterpolate");
        options := [];
        as_ := VUndefined |}.

(** ** stringLiteral *)

Definition stringLiteral (env : NODE_ENV) (defaultValue options_ opts : value)
  : result PropTypeConfig :=
  Ok {| type := "stringLiteral";
        default := defaultValue;
        options := spread_into [] options_;
        brand := "TheatrePropType";
        valueType := VNull;
        as_ := nullish_or (opt_get opts "as") (fun v => v) (VStr "menu");
        label := opt_get opts "label";
        sanitize := fun val =>
          match val with
          | VStr s =>
              match options_ with
              | VUndefined | VNull =>
                  Throw (TypeError "Cannot convert undefined or null to object")
              | _ => if hasOwnProperty options_ s then Ok val else Ok VUndefined
              end
          | _ => Ok VUndefined
          end;
        interpolate := Builtin "leftInterpolate" |}.

End PropTypes.

(* ================================================================== *)
(** * Well-formed objects and the examples of the specification *)
(* ================================================================== *)

Module WellFormed.
Import JS.

(** The own-key order of an object: array indices ascending, then the
    other keys; no key twice. *)
Definition key_before (k1 k2 : string) : Prop :=
  match array_index k1, array_index k2 with
  | Some a, Some b => (a < b)%N
  | Some _, None => True
  | None, Some _ => False
  | None, None => k1 <> k2
  end.

Definition own_key_order (o : fields) : Prop :=
  ForallOrdPairs key_before (own_keys o).

End WellFormed.

Module Scenario.
Import JS Lodash DictAtom.

Definition one : value := VNum (Fin 1).
Definition two : value := VNum (Fin 2).
Definition three : value := VNum (Fin 3).

(** The keys of [o] that the atom does not have yet, in the order
    [forEach] visits them. *)
Definition new_keys (o : value) (a : atom) : list key :=
  map snd (filter (fun vk => negb (hasOwn (_internalMap a) (key_name (snd vk))))
                  (forEach o)).

(** What [pick] does with one top-level key: the key is copied when
    the object has it. *)
Definition pick_step (object : value) (acc : fields) (k : string) : fields :=
  if hasIn object [k] then set_field k (get_prop object k) acc else acc.

End Scenario.

Module ReducerScenario.
Import JS Lodash WrapRootReducer Scenario.

(** Four type strings for the examples. *)
Definition types : ActionTypes :=
  mkActionTypes "@@root/MERGE_STATE" "@@root/SET_STATE" "@@root/RESET_STATE"
                "@@root/MULTI_REDUCE_STATE".

(** An inner reducer with the initial state [{x: 1, y: 2}] that keeps
    any other state as it is. *)
Definition inner : Reducer :=
  fun state _ =>
    match state with
    | VUndefined => Ok (VObj [("x", one); ("y", two)])
    | _ => Ok state
    end.

(** The closures of the example: [v => v + 1] and [v => v * 2]. *)
Definition arith : closures :=
  fun f args =>
    match f, args with
    | 0, VNum (Fin z) :: _ => Ok (VNum (Fin (z + 1)))
    | 1, VNum (Fin z) :: _ => Ok (VNum (Fin (z * 2)))
    | _, _ => Ok (VNum NaN)
    end.


(** One pair applied to a state: [update(pair.path, pair.reducer, state)] *)
Definition apply_pair (call : closures) (state : value)
  (p : list string * value) : result value :=
  fp_update call (VArr (map VStr (fst p))) (snd p) state.

(** The keys that [resetStateAction(names)] resets: those listed that
    the initial state has. *)
Definition is_reset (names : list string) (init : value) (k : string) : bool :=
  existsb (String.eqb k) names && hasIn init [k].

End ReducerScenario.

Module PersistorScenario.
Import JS Lodash StatePersistor Scenario.

(** Modelled from the spec: $src/shared/utils/spreadPaths, which is not
    among the sources.  For each path of [paths] in turn, the value at
    that path in [from] is laid over [to] at that path. *)
Definition spreadPaths (paths from to : value) : value :=
  match paths with
  | VArr ps =>
      fold_left (fun acc p => baseSet acc (castPath p) (baseGet from (castPath p)))
                ps to
  | _ => to
  end.

(** A store with a [setStateAction] that replaces the state; any other
    action leaves it as it is. *)
Definition setState (payload : value) : value :=
  VObj [("type", VStr "@@root/SET_STATE"); ("payload", payload)].

Definition bootstrap : value := VObj [("type", VStr "@@root/BOOTSTRAP")].

Definition root : value -> value -> value :=
  fun state action =>
    match get_prop action "type" with
    | VStr "@@root/SET_STATE" => get_prop action "payload"
    | _ => state
    end.

Definition path : string := "/foo/state.json".

(** The text [{"projects":{"listOfPaths":["/a"]}}] and a text that is
    not JSON. *)
Definition dq : string := String (ascii_of_nat 34) EmptyString.

Definition persisted : string :=
  "{" ++ dq ++ "projects" ++ dq ++ ":{" ++ dq ++ "listOfPaths" ++ dq ++ ":["
  ++ dq ++ "/a" ++ dq ++ "]}}".

Definition garbled : string := "{projects".

(** [JSON.parse] on the two texts; it throws on every other text here. *)
Definition parse : string -> result value :=
  fun text =>
    if text =? persisted
    then Ok (VObj [("projects", VObj [("listOfPaths", VArr [VStr "/a"])])])
    else Throw (Error "SyntaxError" (VStr text)).

(** The state of the store before loading. *)
Definition fresh : value :=
  VObj [("projects", VObj [("listOfPaths", VArr []); ("open", VNull)]);
        ("window", VNum (Fin 1))].

Definition world_with (fs : list (string * string)) : world :=
  mkWorld fs fresh [] [] VUndefined [].

(** Structural equality of values, for [deepEqual] in the examples. *)
Fixpoint value_eqb (a b : value) : bool :=
  match a, b with
  | VUndefined, VUndefined | VNull, VNull => true
  | VBool x, VBool y => Bool.eqb x y
  | VNum (Fin x), VNum (Fin y) => (x =? y)%Z
  | VNum PosInf, VNum PosInf | VNum NegInf, VNum NegInf => true
  | VStr x, VStr y => (x =? y)%string
  | VObj x, VObj y =>
      (fix all2 (x y : fields) : bool :=
         match x, y with
         | [], [] => true
         | (k, v) :: x', (k', v') :: y' =>
             (k =? k')%string && value_eqb v v' && all2 x' y'
         | _, _ => false
         end) x y
  | VArr x, VArr y =>
      (fix all2 (x y : list value) : bool :=
         match x, y with
         | [], [] => true
         | v :: x', v' :: y' => value_eqb v v' && all2 x' y'
         | _, _ => false
         end) x y
  | VFun x, VFun y => Nat.eqb x y
  | _, _ => false
  end.

(** A stand-in for [JSON.stringify] in the examples: the text of the
    persisted list of paths. *)
Definition show (v : value) : string :=
  to_string (baseGet v ["projects"; "listOfPaths"]).


(** The state with another list of paths. *)
Definition state_with (paths : list string) : value :=
  VObj [("projects", VObj [("listOfPaths", VArr (map VStr paths));
                           ("open", VNull)]);
        ("window", VNum (Fin 1))].

(** The world of the watcher with another state in its store. *)
Definition with_store (s : value) (w : world) : world :=
  mkWorld (files w) s (dispatched w) (console w) (lastState w) (writes w).

End PersistorScenario.

(* ================================================================== *)
(** * src/shared/components/ActiveModeProvider/ActiveModeProvider.tsx *)
(* ================================================================== *)

Module ActiveModeProvider.
Import JS.

(** [IMode] *)
Inductive IMode : Type :=
  | mode_option
  | mode_super
  | mode_shift
  | mode_d
  | mode_c
  | mode_h.

(** The string that a mode is in the program text. *)
Definition mode_name (m : IMode) : string :=
  match m with
  | mode_option => "option"
  | mode_super => "super"
  | mode_shift => "shift"
  | mode_d => "d"
  | mode_c => "c"
  | mode_h => "h"
  end.

Definition IMode_eqb (a b : IMode) : bool := mode_name a =? mode_name b.

(** [String.prototype.toUpperCase], on the letters a to z. *)
Definition upper_ascii (c : ascii) : ascii :=
  let n := nat_of_ascii c in
  if ((97 <=? n) && (n <=? 122))%nat then ascii_of_nat (n - 32) else c.

Fixpoint toUpperCase (s : string) : string :=
  match s with
  | EmptyString => EmptyString
  | String c rest => String (upper_ascii c) (toUpperCase rest)
  end.

Section Component.

(** [isMac] of $shared/utils/isMac: fixed by the platform. *)
Variable isMac : bool.

Definition KEYS_MAP : fields :=
  [("option", VNum (Fin 18));
   ("shift", VNum (Fin 16));
   ("super", VNum (Fin (if isMac then 91 else 17)));
   ("d", VNum (Fin 68));
   ("c", VNum (Fin 67));
   ("h", VNum (Fin 72))].

(** [Object.keys(KEYS_MAP).reduce((reducer, key) =>
      ({...reducer, [key]: key.toUpperCase()}), {})] *)
Definition MODES : value :=
  fold_left
    (fun reducer key =>
       VObj (set_field key (VStr (toUpperCase key)) (spread_into [] reducer)))
    (Object_keys (VObj KEYS_MAP)) (VObj []).

(** A [Map] from key codes to modes: the entries in insertion order, a
    key set again keeps its place and takes the new value. *)
Definition KeyMap := list (Z * IMode).

Fixpoint Map_set (k : Z) (m : IMode) (entries : KeyMap) : KeyMap :=
  match entries with
  | [] => [(k, m)]
  | (k', m') :: rest =>
      if (k' =? k)%Z then (k', m) :: rest else (k', m') :: Map_set k m rest
  end.

Fixpoint Map_get (k : Z) (entries : KeyMap) : option IMode :=
  match entries with
  | [] => None
  | (k', m) :: rest => if (k' =? k)%Z then Some m else Map_get k rest
  end.

(** [KEYS_MAP[mode]], a key code for every mode. *)
Definition keyCode_of (m : IMode) : Z :=
  match get_prop (VObj KEYS_MAP) (mode_name m) with
  | VNum (Fin z) => z
  | _ => 0
  end.

(** [new Map(modes.map(mode => [KEYS_MAP[mode], mode]))] *)
Definition new_Map (modes : list IMode) : KeyMap :=
  fold_left (fun acc m => Map_set (keyCode_of m) m acc) modes [].

(** The component: its props, its two fields, its React state, and the
    calls made so far to the listener of the props, if there is one.
    The props are those the component was made with. *)
Record component : Type := mkComponent {
  modes : list IMode;
  has_onChange : bool;           (* props.__dontUseOrYoullBeFired_onChange *)
  _isMouseDown : bool;
  _mapOfKeycodeToMode : KeyMap;
  activeMode : value;            (* state.activeMode: IActiveMode *)
  onChange_calls : list value
}.

(** [constructor(props)]; [_isMouseDown] is not set and reads as
    false. *)
Definition constructor (props_modes : list IMode) (props_onChange : bool)
  : component :=
  mkComponent props_modes props_onChange false (new_Map props_modes) VNull [].

(** [a === b] on values of [IActiveMode] *)
Definition same_mode (a b : value) : bool :=
  match a, b with
  | VUndefined, VUndefined => true
  | VNull, VNull => true
  | VStr x, VStr y => x =? y
  | _, _ => false
  end.

(** [setMode(activeMode)].  A handler calls it at most once, and the
    state that [setState] was given is the state that the next handler
    reads. *)
Definition setMode (mode : value) (c : component) : component :=
  if same_mode (activeMode c) mode then c
  else
    mkComponent (modes c) (has_onChange c) (_isMouseDown c)
                (_mapOfKeycodeToMode c) mode
                (if has_onChange c then (onChange_calls c ++ [mode])%list
                 else onChange_calls c).

(** [resetActiveMode()] *)
Definition resetActiveMode (c : component) : component := setMode VNull c.

(** A [KeyboardEvent]: its key code and the tag name of its target, if
    it has a target. *)
Record KeyboardEvent : Type := mkKeyboardEvent {
  keyCode : Z;
  target : option string
}.

Definition handleKeyDown (event : KeyboardEvent) (c : component) : component :=
  if _isMouseDown c then c
  else if match target event with
          | Some tagName =>
              (tagName =? "INPUT") && negb (existsb (Z.eqb (keyCode event)) [91%Z])
          | None => false
          end
  then c
  else
    match Map_get (keyCode event) (_mapOfKeycodeToMode c) with
    | Some mode => setMode (get_prop MODES (mode_name mode)) c
    | None => c
    end.

Definition handleKeyUp (c : component) : component :=
  match activeMode c with
  | VUndefined | VNull => c
  | _ => resetActiveMode c
  end.

Definition set_isMouseDown (b : bool) (c : component) : component :=
  mkComponent (modes c) (has_onChange c) b (_mapOfKeycodeToMode c)
              (activeMode c) (onChange_calls c).

Definition handleMouseDown (c : component) : component := set_isMouseDown true c.

Definition handleMouseUp (c : component) : component := set_isMouseDown false c.

(** The events that [componentDidMount] listens to, with the handler of
    each. *)
Inductive dom_event : Type :=
  | keydown (e : KeyboardEvent)
  | keyup
  | mousedown
  | mouseup
  | mouseenter
  | focus.

Definition handle (c : component) (ev : dom_event) : component :=
  match ev with
  | keydown e => handleKeyDown e c
  | keyup => handleKeyUp c
  | mousedown => handleMouseDown c
  | mouseup => handleMouseUp c
  | mouseenter => resetActiveMode c
  | focus => resetActiveMode c
  end.

End Component.

End ActiveModeProvider.

(* ================================================================== *)
(** * scripts/coffee/lib/view/ListManager.coffee *)
(* ================================================================== *)

Module ListManager.
Import JS.

(** A [List] of ./listManager/List, which is not among the sources:
    what the manager uses of it is that it is an object, with an
    identity, and its [name]. *)
Record List : Type := mkList {
  list_id : nat;
  name : value
}.

(** [list is list'] on objects: the same object. *)
Definition same_list (a b : List) : bool := Nat.eqb (list_id a) (list_id b).

(** A [ListManager]: its [_lists], and the number of [List] objects
    made so far, which is the identity of the next one. *)
Record manager : Type := mkManager {
  _lists : list List;
  made : nat
}.

Section Manager.

(** The [name] of the list that [new List(manager, name)] makes: the
    class is not among the sources, so what its constructor does with
    the name it is given is a parameter. *)
Variable List_name : value -> value.

(** [constructor(view)] *)
Definition constructor : manager := mkManager [] 0.

(** [getAll()] *)
Definition getAll (m : manager) : list List := _lists m.

(** [_getListByName(name)] *)
Definition _getListByName (given : value) (m : manager)
  : result (option List) :=
  let name_ := to_string given in
  if (String.length name_ <? 3)%nat then
    Throw (Error "Wrong name for a list" (VStr name_))
  else Ok (find (fun l => match name l with
                          | VStr s => s =? name_
                          | _ => false
                          end) (_lists m)).

(** [get(name)] *)
Definition get (given : value) (m : manager) : result (List * manager) :=
  found <- _getListByName given m ;;
  match found with
  | Some l => Ok (l, m)
  | None =>
      let l := mkList (made m) (List_name given) in
      Ok (l, mkManager (_lists m ++ [l])%list (S (made m)))
  end.

(** [array.pluckOneItem(a, item)] of utila: the first occurrence of the
    item is taken out. *)
Fixpoint pluckOneItem (a : list List) (item : List) : list List :=
  match a with
  | [] => []
  | x :: rest => if same_list x item then rest else x :: pluckOneItem rest item
  end.

(** [_removeList(list)] *)
Definition _removeList (l : List) (m : manager) : manager :=
  mkManager (pluckOneItem (_lists m) l) (made m).

End Manager.

End ListManager.

(* ================================================================== *)
(** * src/shared/DataVerse/atoms/dict.tsx: the calls through the map *)
(* ================================================================== *)

Module DictAtomCalls.
Import JS Lodash DictAtom.

(** [DictAtom] above follows the methods for a map that answers
    [hasOwnProperty] with the builtin of [Object.prototype] and that
    gets an own property from every [this._internalMap[k] = v].  Two
    keys make the source leave that path, and this module follows the
    methods with them:
    - [this._internalMap.hasOwnProperty] is read off the map, so an own
      property of the map with that name is found before the builtin;
    - [this._internalMap['__proto__'] = v] runs the setter of
      [Object.prototype]: no own property is created, and an object
      [v] becomes the prototype of the map.
    A method ends with [Some r], its result or the error it throws, or
    with [None] where it goes on in a function that the map holds or
    with a map whose prototype it has set, which is not followed. *)

Definition not_a_function : error :=
  TypeError "this._internalMap.hasOwnProperty is not a function".

(** [this._internalMap.hasOwnProperty(k)] *)
Definition hasOwnProperty_call (a : atom) (k : key) : option (result bool) :=
  match lookup "hasOwnProperty" (_internalMap a) with
  | None => Some (Ok (hasOwn (_internalMap a) (key_name k)))
  | Some (VFun _) => None
  | Some _ => Some (Throw not_a_function)
  end.

(** [prop(key)] *)
Definition prop_call (a : atom) (k : key) : option (result value) :=
  match hasOwnProperty_call a k with
  | Some (Ok true) =>
      Some (Ok (get_prop (VObj (_internalMap a)) (key_name k)))
  | Some (Ok false) => Some (Ok VUndefined)
  | Some (Throw e) => Some (Throw e)
  | None => None
  end.

(** The loop [forEach(o, (v, k) => { this._internalMap[k] = v; ... })]
    visits the key [__proto__]. *)
Definition stores___proto__ (o : value) : bool :=
  existsb (fun vk => key_name (snd vk) =? "__proto__") (forEach o).


(** [_change] calls [hasOwnProperty] of the map once for every visit of
    its first loop, once (in [prop]) for every own key of [o] under
    [mapValues], and once (in [prop]) for every key to delete. *)
Definition asks_the_map (o : value) (keysToDelete : list key) : bool :=
  match forEach o, own_entries o, keysToDelete with
  | [], [], [] => false
  | _, _, _ => true
  end.

(** [_change(o, keysToDelete)].  The map is written by the last two
    loops only, so all the calls of [hasOwnProperty], which come before
    them, have one outcome: the first of them throws, or goes into a
    function of the map, or all are answered by the builtin; then the
    last loop stores. *)
Definition _change_call (o : value) (keysToDelete : list key) (a : atom)
  : option (result atom) :=
  if asks_the_map o keysToDelete then
    match lookup "hasOwnProperty" (_internalMap a) with
    | None =>
        if stores___proto__ o then None
        else Some (Ok (_change o keysToDelete a))
    | Some (VFun _) => None
    | Some _ => Some (Throw not_a_function)
    end
  else Some (Ok (_change o keysToDelete a)).

(** [assign(o)] *)
Definition assign_call (o : value) (a : atom) : option (result atom) :=
  _change_call o [] a.

(** [setProp(key, value)] *)
Definition setProp_call (k : string) (v : value) (a : atom)
  : option (result atom) :=
  assign_call (VObj [(k, v)]) a.

(** [deleteProp(key)] *)
Definition deleteProp_call (k : key) (a : atom) : option (result atom) :=
  _change_call (VObj []) [k] a.

End DictAtomCalls.

(* ================================================================== *)
(** * src/lb/statePersistor/sagas.tsx: the root saga *)
(* ================================================================== *)

Module PersistorRoot.
Import JS Lodash StatePersistor.

Section Root.

Variable pathToPersistenceFile : string.
Variable JSON_parse : string -> result value.
Variable JSON_stringify : value -> string.
Variable deepEqual : value -> value -> bool.
Variable bootstrapAction : value.
Variable setStateAction : value -> value.
Variable spreadPaths : value -> value -> value -> value.
Variable rootReducer : value -> value -> value.

(** [statePersistorRootSaga]: [_loadState] is called and runs to its
    end; then [persistStateChanges] is forked, which reads the state,
    sets [lastState] and installs the watcher of [takeLatest], with no
    task running yet.  An error of [_loadState] ends the root saga
    before the fork. *)
Definition statePersistorRootSaga (w : world) : result watcher :=
  match run rootReducer
            (_loadState pathToPersistenceFile JSON_parse bootstrapAction
                        setStateAction spreadPaths) w with
  | (Throw e, _) => Throw e
  | (Ok _, w1) =>
      match run rootReducer persistStateChanges_init w1 with
      | (Throw e, _) => Throw e
      | (Ok _, w2) => Ok (None, w2)
      end
  end.

End Root.

End PersistorRoot.

Module ActiveModeScenario.
Import JS ActiveModeProvider.

(** The component after a sequence of events. *)
Definition after (isMac : bool) (c : component) (evs : list dom_event)
  : component :=
  fold_left (handle isMac) evs c.

(** A value that is [null] or the upper-case name of one of the modes. *)
Definition null_or_listed (listed : list IMode) (v : value) : Prop :=
  v = VNull \/ exists m, In m listed /\ v = VStr (toUpperCase (mode_name m)).

(** Each element of the list differs from the one before it, the first
    one from [prev]. *)
Fixpoint each_differs (prev : value) (l : list value) : Prop :=
  match l with
  | [] => True
  | x :: rest => same_mode prev x = false /\ each_differs x rest
  end.

(** What holds of the component in every state: its props and its map
    are those it was made with, the active mode is [null] or a listed
    mode, and the calls to the listener follow the changes of the
    active mode. *)
Definition invariant (isMac : bool) (listed : list IMode) (fn : bool)
  (c : component) : Prop :=
  has_onChange c = fn /\
  _mapOfKeycodeToMode c = new_Map isMac listed /\
  null_or_listed listed (activeMode c) /\
  if fn
  then last (onChange_calls c) VNull = activeMode c /\
       each_differs VNull (onChange_calls c)
  else onChange_calls c = [].

End ActiveModeScenario.

Module ListManagerScenario.
Import JS ListManager.

(** A [List] whose constructor keeps the name it is given. *)
Definition given_name (v : value) : value := v.

(** [list.name is name] for a string [s]. *)
Definition named (s : string) (l : List) : bool :=
  match name l with VStr x => x =? s | _ => false end.

(** What a user of a [ListManager] does with it. *)
Inductive op : Type :=
  | Get (name : string)
  | Remove (l : List).

(** An operation on a manager; a [get] that throws leaves the manager
    as it is. *)
Definition apply_op (List_name : value -> value) (m : manager) (o : op)
  : manager :=
  match o with
  | Get s => match get List_name (VStr s) m with
             | Ok (_, m') => m'
             | Throw _ => m
             end
  | Remove l => _removeList l m
  end.

Definition apply_ops (List_name : value -> value) (m : manager)
  (ops : list op) : manager :=
  fold_left (apply_op List_name) ops m.

(** The lists of a manager are different objects, all made by it, with
    different names. *)
Definition well_formed (m : manager) : Prop :=
  Forall (fun l => list_id l < made m) (_lists m) /\
  NoDup (map list_id (_lists m)) /\
  NoDup (map name (_lists m)).

End ListManagerScenario.

Module DictAtomScenario.
Import JS Lodash DictAtom DictAtomCalls.

(** A map, or a partial, with neither of the two keys that take the
    methods off their usual path. *)
Definition ordinary (o : fields) : Prop :=
  hasOwn o "hasOwnProperty" = false /\ hasOwn o "__proto__" = false.

(** A partial that lodash walks over its own keys, each of them once. *)
Definition plain (o : fields) : Prop :=
  isArrayLike (VObj o) = false /\ NoDup (own_keys o).

(** An atom with an own [hasOwnProperty] in its map that is not a
    function. *)
Definition shadowed (a : atom) : Prop :=
  exists v, lookup "hasOwnProperty" (_internalMap a) = Some v /\
            typeof v <> TFunction.

End DictAtomScenario.

Module WatcherScenario.
Import JS Lodash StatePersistor.

(** What a saga that only watches and persists may do to the world:
    put nothing, log nothing, write to the persistence file only and
    leave every other file as it is. *)
Definition only_persists (path : string) (w w' : world) : Prop :=
  dispatched w' = dispatched w /\
  console w' = console w /\
  (exists ws, writes w' = (writes w ++ ws)%list /\
              Forall (fun wr => fst wr = path) ws) /\
  (forall q, q <> path ->
             file_content q (files w') = file_content q (files w)).

(** The effects and steps of such a saga: it waits, reads the state,
    ensures and writes the persistence file, and reads and writes
    [lastState]. *)
Definition allowed (path : string) (e : effect) : Prop :=
  match e with
  | Delay _ | Select => True
  | Call_ensureFile p => p = path
  | Call_writeFile p _ => p = path
  | _ => False
  end.

Inductive tame (path : string) : saga -> Prop :=
  | tame_Return v : tame path (Return v)
  | tame_Yield e k :
      allowed path e -> (forall x, tame path (k x)) -> tame path (Yield e k)
  | tame_Step o k :
      (forall msg, o <> Console_error msg) ->
      (forall x, tame path (k x)) -> tame path (Step o k).

(** The task of a watcher, if it has one, is tame however it is
    resumed. *)
Definition tame_task (path : string) (t : option (value -> saga)) : Prop :=
  match t with
  | Some k => forall x, tame path (k x)
  | None => True
  end.

End WatcherScenario.

Module LabelScenario.
Import JS PropTypes.

(** The first, and the last, character of a string is white space. *)
Definition starts_with_space (s : string) : bool :=
  match s with
  | EmptyString => false
  | String c _ => is_space c
  end.

Fixpoint ends_with_space (s : string) : bool :=
  match s with
  | EmptyString => false
  | String c EmptyString => is_space c
  | String _ rest => ends_with_space rest
  end.

(** A label that [validateCommonOpts] accepts: a string that is not
    empty and neither starts nor ends with white space. *)
Definition good_label (v : value) : Prop :=
  exists l, v = VStr l /\ l <> EmptyString /\
            starts_with_space l = false /\ ends_with_space l = false.

End LabelScenario.

(* ================================================================== *)
(** * Facts about objects *)
(* ================================================================== *)

Module JSFacts.
Import JS WellFormed.
Local Open Scope list_scope.

Lemma lookup_replace k k' v o :
  lookup k (replace k' v o) =
  if k' =? k then (if hasOwn o k' then Some v else None) else lookup k o.
Proof.
  unfold hasOwn.
  induction o as [|[k0 v0] rest IH]; simpl.
  - destruct (k' =? k); reflexivity.
  - destruct (k0 =? k') eqn:E0; simpl.
    + apply String.eqb_eq in E0; subst k0.
      destruct (k' =? k) eqn:E1; reflexivity.
    + rewrite IH.
      destruct (k' =? k) eqn:E1.
      * apply String.eqb_eq in E1; subst k. rewrite E0. reflexivity.
      * reflexivity.
Qed.

Lemma lookup_app_new k k' v o :
  lookup k' o = None ->
  lookup k (o ++ [(k', v)]) = if k' =? k then Some v else lookup k o.
Proof.
  induction o as [|[k0 v0] rest IH]; simpl; intro H.
  - reflexivity.
  - destruct (k0 =? k') eqn:E0; [discriminate|].
    rewrite (IH H).
    destruct (k0 =? k) eqn:E1; [|reflexivity].
    apply String.eqb_eq in E1; subst k0.
    rewrite String.eqb_sym, E0. reflexivity.
Qed.

Lemma lookup_insert_index k n k' v o :
  lookup k' o = None ->
  lookup k (insert_index n k' v o) = if k' =? k then Some v else lookup k o.
Proof.
  induction o as [|[k0 v0] rest IH]; simpl; intro H.
  - reflexivity.
  - destruct (k0 =? k') eqn:E0; [discriminate|].
    assert (Hhead : lookup k ((k', v) :: (k0, v0) :: rest) =
                    if k' =? k then Some v
                    else if k0 =? k then Some v0 else lookup k rest)
      by reflexivity.
    destruct (array_index k0) as [n0|].
    + destruct (n <? n0)%N; [exact Hhead|].
      simpl. rewrite (IH H).
      destruct (k0 =? k) eqn:E1; [|reflexivity].
      apply String.eqb_eq in E1; subst k0.
      rewrite String.eqb_sym, E0. reflexivity.
    + exact Hhead.
Qed.

(** Reading after writing: [o[k'] = v] changes what [o[k']] reads and
    nothing else. *)
Lemma lookup_set_field k k' v o :
  lookup k (set_field k' v o) = if k' =? k then Some v else lookup k o.
Proof.
  unfold set_field, hasOwn.
  destruct (lookup k' o) eqn:E.
  - rewrite lookup_replace. unfold hasOwn. rewrite E. reflexivity.
  - destruct (array_index k').
    + apply lookup_insert_index; exact E.
    + apply lookup_app_new; exact E.
Qed.

Lemma key_before_irrefl k : ~ key_before k k.
Proof.
  unfold key_before. destruct (array_index k); [lia | congruence].
Qed.

Lemma Forall_before_not_own k (o : fields) :
  Forall (fun y => key_before y k) (own_keys o) -> lookup k o = None.
Proof.
  induction o as [|[k0 v0] rest IH]; simpl; intro H.
  - reflexivity.
  - inversion H as [|? ? H1 H2]; subst.
    destruct (k0 =? k) eqn:E.
    + apply String.eqb_eq in E; subst. exfalso. exact (key_before_irrefl _ H1).
    + apply IH; exact H2.
Qed.

Lemma insert_index_last n k v (o : fields) :
  array_index k = Some n ->
  Forall (fun y => key_before y k) (own_keys o) ->
  insert_index n k v o = (o ++ [(k, v)])%list.
Proof.
  intros Hk.
  induction o as [|[k0 v0] rest IH]; simpl; intro H.
  - reflexivity.
  - inversion H as [|? ? H1 H2]; subst.
    unfold key_before in H1. rewrite Hk in H1.
    destruct (array_index k0) as [n0|]; [|contradiction].
    destruct (n <? n0)%N eqn:E.
    + apply N.ltb_lt in E. lia.
    + rewrite (IH H2). reflexivity.
Qed.

(** A key that comes after all the keys of [o] is created at the end. *)
Lemma set_field_last k v (o : fields) :
  Forall (fun y => key_before y k) (own_keys o) ->
  set_field k v o = (o ++ [(k, v)])%list.
Proof.
  intro H. unfold set_field, hasOwn.
  rewrite (Forall_before_not_own k o H).
  destruct (array_index k) eqn:E; [|reflexivity].
  apply insert_index_last; assumption.
Qed.

Lemma ForallOrdPairs_snoc {A} (R : A -> A -> Prop) (l : list A) (x : A) :
  ForallOrdPairs R (l ++ [x]) ->
  ForallOrdPairs R l /\ Forall (fun y => R y x) l.
Proof.
  induction l as [|a l IH]; simpl; intro H.
  - split; constructor.
  - inversion H as [|? ? H1 H2]; subst.
    destruct (IH H2) as [H3 H4].
    apply Forall_app in H1. destruct H1 as [H1 H1'].
    split.
    + constructor; assumption.
    + constructor; [|assumption]. inversion H1'; assumption.
Qed.

(** Defining the properties of a well-formed object one by one, in its
    own-key order, on an empty object yields the object. *)
Lemma rebuild (o : fields) :
  own_key_order o ->
  fold_left (fun acc kv => set_field (fst kv) (snd kv) acc) o [] = o.
Proof.
  unfold own_key_order.
  induction o as [|[k v] o IH] using rev_ind; intro H.
  - reflexivity.
  - unfold own_keys in H. rewrite map_app in H. simpl in H.
    apply ForallOrdPairs_snoc in H. destruct H as [H1 H2].
    rewrite fold_left_app. simpl. rewrite (IH H1).
    apply set_field_last. exact H2.
Qed.

End JSFacts.

Module SpreadFacts.
Import JS Lodash WellFormed Scenario JSFacts.
Local Open Scope list_scope.

Lemma lookup_None_iff k (o : fields) : lookup k o = None <-> ~ In k (own_keys o).
Proof.
  induction o as [|[k0 v0] rest IH]; simpl.
  - split; [intros _ H; exact H | reflexivity].
  - destruct (k0 =? k) eqn:E.
    + apply String.eqb_eq in E. split; [discriminate|]. intro H. exfalso. auto.
    + apply String.eqb_neq in E. rewrite IH. split.
      * intros H [H1|H1]; [exact (E H1) | exact (H H1)].
      * intros H H1. apply H. right. exact H1.
Qed.

Lemma keys_replace k v (o : fields) : own_keys (replace k v o) = own_keys o.
Proof.
  induction o as [|[k0 v0] rest IH]; simpl; [reflexivity|].
  destruct (k0 =? k); simpl; [reflexivity|]. f_equal. exact IH.
Qed.

Lemma In_keys_insert_index x n k v (o : fields) :
  In x (own_keys (insert_index n k v o)) <-> x = k \/ In x (own_keys o).
Proof.
  induction o as [|[k0 v0] rest IH]; simpl.
  - intuition.
  - destruct (array_index k0) as [n0|].
    + destruct (n <? n0)%N; simpl; [intuition|]. rewrite IH. intuition.
    + simpl. intuition.
Qed.

Lemma NoDup_keys_insert_index n k v (o : fields) :
  ~ In k (own_keys o) -> NoDup (own_keys o) -> NoDup (own_keys (insert_index n k v o)).
Proof.
  induction o as [|[k0 v0] rest IH]; simpl; intros Hk Hnd.
  - constructor; [intros []|constructor].
  - inversion Hnd as [|? ? H1 H2]; subst.
    assert (Hcons : NoDup (k :: k0 :: own_keys rest)) by (constructor; assumption).
    destruct (array_index k0) as [n0|]; [|exact Hcons].
    destruct (n <? n0)%N; [exact Hcons|].
    simpl. constructor.
    + rewrite In_keys_insert_index. intros [E|E]; [subst; auto | auto].
    + apply IH; auto.
Qed.

(** Writing a property keeps the keys of an object distinct. *)
Lemma NoDup_keys_set_field k v (o : fields) :
  NoDup (own_keys o) -> NoDup (own_keys (set_field k v o)).
Proof.
  intro Hnd. unfold set_field, hasOwn.
  destruct (lookup k o) eqn:E.
  - rewrite keys_replace. exact Hnd.
  - apply lookup_None_iff in E.
    destruct (array_index k).
    + apply NoDup_keys_insert_index; assumption.
    + unfold own_keys. rewrite map_app. simpl.
      apply NoDup_app; [exact Hnd | constructor; [intros []|constructor] |].
      intros x Hx [Hx'|[]]. subst. exact (E Hx).
Qed.

(** The own properties of [{...target, ...source}]: those of the
    source, and those of the target that the source does not have. *)
Lemma lookup_spread_into k (target : fields) (source : value) :
  NoDup (Object_keys source) ->
  lookup k (spread_into target source) =
  match lookup k (own_entries source) with
  | Some v => Some v
  | None => lookup k target
  end.
Proof.
  unfold spread_into, Object_keys.
  generalize (own_entries source) as es. intro es. revert target.
  induction es as [|[k0 v0] rest IH]; simpl; intros target Hnd.
  - reflexivity.
  - inversion Hnd as [|? ? H1 H2]; subst.
    rewrite (IH _ H2), lookup_set_field.
    destruct (k0 =? k) eqn:E.
    + apply String.eqb_eq in E; subst k0.
      apply lookup_None_iff in H1. rewrite H1. reflexivity.
    + reflexivity.
Qed.

Lemma NoDup_keys_spread_into (target : fields) (source : value) :
  NoDup (own_keys target) -> NoDup (own_keys (spread_into target source)).
Proof.
  unfold spread_into. generalize (own_entries source) as es. intro es.
  revert target. induction es as [|[k0 v0] rest IH]; simpl; intros target H.
  - exact H.
  - apply IH. apply NoDup_keys_set_field. exact H.
Qed.

(** ** pick with top-level keys *)

Lemma pick_path_name object (acc : fields) k :
  pick_path object (VObj acc) (VStr k) = VObj (pick_step object acc k).
Proof.
  unfold pick_path, pick_step. cbv zeta.
  change (castPath (VStr k)) with [k].
  destruct (hasIn object [k]) eqn:E; [|reflexivity].
  assert (Hn : nullish object = false).
  { unfold hasIn, hasPath in E. destruct (nullish object); [discriminate|reflexivity]. }
  unfold baseGet, walk. rewrite Hn. reflexivity.
Qed.

Lemma pick_names_fold object names (acc : fields) :
  fold_left (pick_path object) (map VStr names) (VObj acc) =
  VObj (fold_left (pick_step object) names acc).
Proof.
  revert acc. induction names as [|k rest IH]; intro acc; simpl.
  - reflexivity.
  - rewrite pick_path_name. apply IH.
Qed.

Lemma hasIn_nullish object k : nullish object = true -> hasIn object [k] = false.
Proof. unfold hasIn, hasPath. intro H. rewrite H. reflexivity. Qed.

Lemma pick_names object names :
  pick object (map VStr names) = VObj (fold_left (pick_step object) names []).
Proof.
  unfold pick. destruct (nullish object) eqn:E.
  - f_equal. induction names as [|k rest IH]; simpl; [reflexivity|].
    unfold pick_step at 2. rewrite (hasIn_nullish _ _ E). exact IH.
  - apply pick_names_fold.
Qed.

Lemma lookup_pick_fold object names k (acc : fields) :
  lookup k (fold_left (pick_step object) names acc) =
  if existsb (String.eqb k) names && hasIn object [k]
  then Some (get_prop object k)
  else lookup k acc.
Proof.
  revert acc. induction names as [|k0 rest IH]; intro acc.
  - reflexivity.
  - cbn [fold_left existsb]. rewrite IH. unfold pick_step.
    destruct (existsb (String.eqb k) rest); cbn [andb orb].
    + rewrite orb_true_r. cbn [andb].
      destruct (hasIn object [k]) eqn:E3; [reflexivity|].
      destruct (hasIn object [k0]) eqn:E4; [|reflexivity].
      rewrite lookup_set_field.
      destruct (k0 =? k) eqn:E2; [|reflexivity].
      apply String.eqb_eq in E2; subst k0. congruence.
    + rewrite orb_false_r.
      destruct (String.eqb k k0) eqn:E2; cbn [andb].
      * apply String.eqb_eq in E2; subst k0.
        destruct (hasIn object [k]) eqn:E3; [|reflexivity].
        rewrite lookup_set_field, String.eqb_refl. reflexivity.
      * destruct (hasIn object [k0]); [|reflexivity].
        rewrite lookup_set_field. rewrite String.eqb_sym, E2. reflexivity.
Qed.

Lemma NoDup_keys_pick_fold object names (acc : fields) :
  NoDup (own_keys acc) -> NoDup (own_keys (fold_left (pick_step object) names acc)).
Proof.
  revert acc. induction names as [|k0 rest IH]; intros acc H; simpl.
  - exact H.
  - apply IH. unfold pick_step. destruct (hasIn object [k0]); [|exact H].
    apply NoDup_keys_set_field. exact H.
Qed.

End SpreadFacts.

(* ================================================================== *)
(** * Facts about dict atoms *)
(* ================================================================== *)

Module DictAtomFacts.
Import JS Lodash DictAtom WellFormed Scenario JSFacts.
Local Open Scope list_scope.

(** ** What the loops of [_change] leave alone *)

Lemma keep_quiet a vk :
  tappers (keep a vk) = tappers a /\ emitted (keep a vk) = emitted a.
Proof. split; reflexivity. Qed.

Lemma fold_quiet {X} (f : atom -> X -> atom) (xs : list X) :
  (forall a x, tappers (f a x) = tappers a /\ emitted (f a x) = emitted a) ->
  forall a, tappers (fold_left f xs a) = tappers a /\
            emitted (fold_left f xs a) = emitted a.
Proof.
  intro Hf. induction xs as [|x rest IH]; intro a; simpl.
  - split; reflexivity.
  - destruct (IH (f a x)) as [H1 H2]. destruct (Hf a x) as [H3 H4].
    rewrite H1, H2, H3, H4. split; reflexivity.
Qed.

(** [_change] emits one event when the atom has a tapper and none
    otherwise; the event carries [o] itself as its [overriddenRefs]. *)
Lemma _change_emitted o ks a :
  emitted (_change o ks a) =
  if hasTappers a
  then emitted a ++ [mkChange o ks (new_keys o a)]
  else emitted a.
Proof.
  unfold _change.
  set (refs := fold_left _ ks (mapValues o _)).
  set (a1 := fold_left _ (forEach (VObj refs)) a).
  set (a2 := fold_left _ ks a1).
  set (a3 := fold_left keep (forEach o) a2).
  assert (H1 : tappers a1 = tappers a /\ emitted a1 = emitted a).
  { apply fold_quiet. intros b x. destruct (truthy (fst x)); split; reflexivity. }
  assert (H2 : tappers a2 = tappers a1 /\ emitted a2 = emitted a1).
  { apply fold_quiet. intros b x. split; reflexivity. }
  assert (H3 : tappers a3 = tappers a2 /\ emitted a3 = emitted a2).
  { apply fold_quiet. intros b x. apply keep_quiet. }
  destruct H1 as [T1 E1], H2 as [T2 E2], H3 as [T3 E3].
  unfold hasTappers. rewrite T3, T2, T1.
  destruct (Nat.eqb (tappers a) 0); simpl.
  - rewrite E3, E2, E1. reflexivity.
  - rewrite E3, E2, E1. reflexivity.
Qed.

(** For a partial that lodash does not take for an array-like
    collection, the added keys are the keys of the partial that the
    atom does not have, in the order of the partial. *)
Lemma new_keys_plain (o : fields) a :
  isArrayLike (VObj o) = false ->
  new_keys (VObj o) a =
  map KName (filter (fun k => negb (hasOwn (_internalMap a) k)) (own_keys o)).
Proof.
  intro Hal. unfold new_keys, forEach. rewrite Hal. cbn [own_entries].
  clear Hal. induction o as [|[k v] rest IH]; [reflexivity|].
  cbn [map filter own_keys fst snd key_name] in *.
  destruct (negb (hasOwn (_internalMap a) k)); cbn [map snd]; rewrite IH;
    reflexivity.
Qed.

(** The constructor emits nothing, whatever the mapping. *)
Lemma constructor_quiet o : emitted (constructor o) = [].
Proof.
  unfold constructor, _assignInitialValue.
  destruct (fold_quiet keep (forEach o) keep_quiet (mkAtom [] [] 0 [])) as [_ H].
  exact H.
Qed.



(** C1 (the code departs from the claim).  An atom holding [{a: 1}] with
    one listener is assigned [{a: 2}]: the one event emitted has
    [overriddenRefs = {a: 2}], the new value, where the claim says the
    value held before the call, [1]. *)
Theorem assign_emits_assigned_values :
  let a := tap (constructor (VObj [("a", one)])) in
  prop a (KName "a") = one /\
  emitted (assign (VObj [("a", two)]) a) =
    [mkChange (VObj [("a", two)]) [] []].
Proof. split; reflexivity. Qed.

(** The scenario of the specification: [assign({a:1,b:2})],
    [deleteProp('a')], [assign({b:3})] on an empty atom with one
    listener. *)
Example assign_delete_assign :
  let a0 := tap (constructor (VObj [])) in
  let a1 := assign (VObj [("a", one); ("b", two)]) a0 in
  let a2 := deleteProp (KName "a") a1 in
  let a3 := assign (VObj [("b", three)]) a2 in
  keys a2 = ["b"] /\
  map addedKeys (emitted a3) = [[KName "a"; KName "b"]; []; []] /\
  map deletedKeys (emitted a3) = [[]; [KName "a"]; []].
Proof. repeat split; reflexivity. Qed.

(** C10 (the code departs from the claim).  The mapping [{length: 1}]
    has the one key [length]; lodash's [forEach] walks it as an array of
    one element, so the atom built from it has the key [0] instead, and
    [prop('length')] is [undefined]. *)
Theorem constructor_of_mapping_with_length :
  let o := VObj [("length", one)] in
  Object_keys o = ["length"] /\
  get_prop o "length" = one /\
  keys (constructor o) = ["0"] /\
  prop (constructor o) (KName "length") = VUndefined /\
  emitted (constructor o) = [].
Proof. repeat split; reflexivity. Qed.

End DictAtomFacts.

(* ================================================================== *)
(** * Facts about the wrapped root reducer *)
(* ================================================================== *)

Module WrapRootReducerFacts.
Import JS Lodash WrapRootReducer WellFormed Scenario ReducerScenario JSFacts SpreadFacts.
Local Open Scope list_scope.

Lemma has_type_action_of t p t' : has_type (action_of t p) t' = (t =? t').
Proof. reflexivity. Qed.

Lemma payload_action_of t p : get_prop (action_of t p) "payload" = p.
Proof. reflexivity. Qed.

Lemma bad_state_spec state : bad_state state = negb (is_nonnull_object state).
Proof. destruct state; reflexivity. Qed.

Lemma object_state_or_empty state :
  is_nonnull_object state = true -> state_or_empty state = state.
Proof. destruct state; simpl; intro H; try discriminate; reflexivity. Qed.

(** What the wrapped reducer does with a [mergeStateAction]. *)
Lemma merge_spec call types reducer state payload :
  wrapRootReducer call types reducer state (mergeStateAction types payload) =
  if negb (is_nonnull_object payload) then
    Throw (Error ("Action " ++ mergeStateAction_type types
                  ++ "'s payload must only be an object.")%string payload)
  else if negb (is_nonnull_object state) then
    Throw (Error ("When dispatching a " ++ mergeStateAction_type types
                  ++ ", the initial state must either be an object or void.")%string
                 state)
  else Ok (object_spread2 state payload).
Proof.
  unfold wrapRootReducer, mergeStateAction.
  rewrite has_type_action_of, String.eqb_refl.
  cbv zeta. rewrite payload_action_of.
  destruct payload; destruct state; reflexivity.
Qed.

(** C2 (the code departs from the claim).  [mergeStateAction({z: 3})]
    dispatched against the state [undefined] throws, where the claim
    (and the message of the error itself) says that a state that is
    void is merged. *)
Theorem merge_into_undefined_state_throws call types reducer :
  wrapRootReducer call types reducer VUndefined
                  (mergeStateAction types (VObj [("z", three)])) =
  Throw (Error ("When dispatching a " ++ mergeStateAction_type types
                ++ ", the initial state must either be an object or void.")%string
               VUndefined).
Proof. rewrite merge_spec. reflexivity. Qed.

(** The cases of the specification that the code does as the claim says. *)
Example merge_examples :
  wrapRootReducer arith types inner (VObj [("x", one)])
                  (mergeStateAction types (VObj [("z", three)])) =
    Ok (VObj [("x", one); ("z", three)]) /\
  (exists e, wrapRootReducer arith types inner (VNum (Fin 5))
               (mergeStateAction types (VObj [("z", three)])) = Throw e) /\
  (exists e, wrapRootReducer arith types inner (VObj [("x", one)])
               (mergeStateAction types (VNum (Fin 7))) = Throw e).
Proof. split; [reflexivity|]. split; eexists; reflexivity. Qed.

(** ** resetStateAction *)

Lemma distinct_reset types :
  distinct types ->
  (resetStateAction_type types =? mergeStateAction_type types) = false /\
  (resetStateAction_type types =? setStateAction_type types) = false.
Proof.
  intros (_ & H2 & _ & H4 & _). split; apply String.eqb_neq; congruence.
Qed.

(** What the wrapped reducer does with a [resetStateAction]. *)
Lemma reset_spec call types reducer state payload :
  distinct types ->
  wrapRootReducer call types reducer state (resetStateAction types payload) =
  (initialState <- reducer VUndefined (resetStateAction types payload) ;;
   if negb (is_nonnull_object state) then
     Throw (Error ("When dispatching a " ++ resetStateAction_type types
                   ++ ", the initial state must either be an object or void.")%string
                  state)
   else match payload with
        | VArr paths => Ok (object_spread2 state (pick initialState paths))
        | _ => Ok initialState
        end).
Proof.
  intro Hd. destruct (distinct_reset types Hd) as [H1 H2].
  unfold wrapRootReducer, resetStateAction.
  rewrite !has_type_action_of, H1, H2, String.eqb_refl.
  cbv zeta. rewrite payload_action_of.
  change (type_tag_eqb (typeof (action_of _ payload)) TObject
          && negb (is_null (action_of (resetStateAction_type types) payload)))
    with true. cbv iota.
  destruct (reducer VUndefined (action_of (resetStateAction_type types) payload))
    as [init|e]; [|reflexivity].
  unfold bind. rewrite bad_state_spec.
  destruct (is_nonnull_object state) eqn:E; [|reflexivity].
  rewrite (object_state_or_empty _ E). reflexivity.
Qed.

(** C3, as amended.  With [initialState = innerReducer(undefined,
    action)]: against a state that is an object, a payload that is not
    an array gives [initialState], and a payload that is an array of
    top-level keys gives the state shallow-merged with
    [pick(initialState, payload)]: the listed keys that the initial
    state has are reset to their initial values and every other
    property of the state is kept.  The top-level keys are the strings
    that [pick] takes for one key of the initial state and finds or
    misses among its own properties ([top_level_key]: an own property
    of the initial state, or, for a plain object, a string without a
    dot or a bracket that [Object.prototype] does not have; and none of
    [__proto__], [constructor], [prototype]); when the initial state is
    [null] or [undefined] nothing is picked, whatever is listed.
    Against a state that is neither an object nor [undefined] the
    wrapped reducer throws, whatever the payload. *)
Theorem reset_against_object_state call types reducer state payload init :
  distinct types ->
  reducer VUndefined (resetStateAction types payload) = Ok init ->
  (is_nonnull_object state = true ->
     (Array_isArray payload = false ->
        wrapRootReducer call types reducer state
                        (resetStateAction types payload) = Ok init) /\
     (forall names,
        payload = VArr (map VStr names) ->
        nullish init = true \/
        Forall (fun n => top_level_key init n = true) names ->
        NoDup (Object_keys state) ->
        exists result,
          wrapRootReducer call types reducer state
                          (resetStateAction types payload) = Ok (VObj result) /\
          VObj result = object_spread2 state (pick init (map VStr names)) /\
          forall k,
            lookup k result =
            if is_reset names init k then Some (get_prop init k)
            else lookup k (own_entries state))) /\
  (is_nonnull_object state = false ->
   state <> VUndefined ->
   wrapRootReducer call types reducer state (resetStateAction types payload) =
   Throw (Error ("When dispatching a " ++ resetStateAction_type types
                 ++ ", the initial state must either be an object or void.")%string
                state)).
Proof.
  intros Hd Hinit. rewrite (reset_spec _ _ _ _ _ Hd), Hinit. unfold bind.
  split.
  - intro Hobj. rewrite Hobj. cbn [negb]. split.
    + intro Harr. destruct payload; try reflexivity. discriminate.
    + intros names -> _ Hnd.
      exists (spread_into (spread_into [] state) (pick init (map VStr names))).
      split; [reflexivity|]. split; [reflexivity|].
      intro k. rewrite pick_names.
      rewrite lookup_spread_into.
      * cbn [own_entries]. rewrite lookup_pick_fold.
        unfold is_reset. cbn [lookup].
        destruct (existsb (String.eqb k) names && hasIn init [k]);
          [reflexivity|].
        rewrite (lookup_spread_into k [] state Hnd). cbn [lookup].
        destruct (lookup k (own_entries state)); reflexivity.
      * unfold Object_keys. cbn [own_entries].
        apply NoDup_keys_pick_fold. constructor.
  - intros Hobj _. rewrite Hobj. reflexivity.
Qed.

(** C3, as stated, fails: a full reset dispatched against the state [5]
    throws instead of giving the initial state [{x: 1, y: 2}]. *)
Lemma reset_against_number_state_throws :
  inner VUndefined (resetStateAction types VUndefined) =
    Ok (VObj [("x", one); ("y", two)]) /\
  wrapRootReducer arith types inner (VNum (Fin 5))
                  (resetStateAction types VUndefined) <>
    Ok (VObj [("x", one); ("y", two)]).
Proof. split; [reflexivity|]. intro H. vm_compute in H. discriminate H. Qed.

(** The examples of the specification. *)
Example reset_examples :
  wrapRootReducer arith types inner (VObj [("x", VNum (Fin 99)); ("y", VNum (Fin 99))])
                  (resetStateAction types (VArr [VStr "x"])) =
    Ok (VObj [("x", one); ("y", VNum (Fin 99))]) /\
  wrapRootReducer arith types inner (VObj [("x", VNum (Fin 99)); ("y", VNum (Fin 99))])
                  (resetStateAction types VUndefined) =
    Ok (VObj [("x", one); ("y", two)]).
Proof. split; reflexivity. Qed.

Lemma types_distinct : distinct types.
Proof. unfold distinct, types; cbn. repeat split; discriminate. Defined.

Lemma reset_against_object_state_witness :
  distinct types /\
  inner VUndefined (resetStateAction types (VArr [VStr "x"])) =
    Ok (VObj [("x", one); ("y", two)]) /\
  Forall (fun n => top_level_key (VObj [("x", one); ("y", two)]) n = true)
         ["x"] /\
  wrapRootReducer arith types inner
                  (VObj [("x", VNum (Fin 99)); ("y", VNum (Fin 99))])
                  (resetStateAction types (VArr [VStr "x"])) =
    Ok (VObj [("x", one); ("y", VNum (Fin 99))]).
Proof.
  split; [exact types_distinct|]. split; [reflexivity|].
  split; [repeat constructor|].
  destruct (reset_against_object_state arith types inner
              (VObj [("x", VNum (Fin 99)); ("y", VNum (Fin 99))])
              (VArr [VStr "x"]) (VObj [("x", one); ("y", two)])
              types_distinct eq_refl) as [H _].
  destruct (H eq_refl) as [_ H2].
  destruct (H2 ["x"] eq_refl) as (result & Hr & Hs & _).
  - right. repeat constructor.
  - repeat constructor; cbn; intuition discriminate.
  - rewrite Hr, Hs. reflexivity.
Defined.

(** ** multiReduceStateAction *)








(** Each pair applied on its own to the state [{x: 1}] would give
    [{x: 2}] twice; the fold gives [{x: 4}]. *)
Example pairs_applied_independently :
  apply_pair arith (VObj [("x", one)]) (["x"], VFun 0) = Ok (VObj [("x", two)]) /\
  apply_pair arith (VObj [("x", one)]) (["x"], VFun 1) = Ok (VObj [("x", two)]).
Proof. split; reflexivity. Qed.

End WrapRootReducerFacts.

(* ================================================================== *)
(** * Facts about the state persistor *)
(* ================================================================== *)

Module StatePersistorFacts.
Import JS Lodash StatePersistor Scenario PersistorScenario.
Local Open Scope list_scope.

Section Load.

Variable pathToPersistenceFile : string.
Variable JSON_parse : string -> result value.
Variable bootstrapAction : value.
Variable setStateAction : value -> value.
Variable spreadPaths : value -> value -> value -> value.
Variable rootReducer : value -> value -> value.

Let load (w : world) : result value * world :=
  run rootReducer
      (_loadState pathToPersistenceFile JSON_parse bootstrapAction
                  setStateAction spreadPaths) w.

(** C5.  The load phase of the persistor.  When the persistence file is
    absent, the only action put is the bootstrap action and nothing is
    logged.  When the file is there and its text does not parse, the
    error is logged, the only action put is the bootstrap action, and
    the saga returns normally.  When the text parses, exactly two
    actions are put: the [setStateAction] of the state of the store
    with the whitelisted paths spread from the parsed JSON, then the
    bootstrap action. *)
Theorem load_phase (w : world) :
  (file_content pathToPersistenceFile (files w) = None ->
   fst (load w) = Ok bootstrapAction /\
   dispatched (snd (load w)) = dispatched w ++ [bootstrapAction] /\
   console (snd (load w)) = console w) /\
  (forall text e,
     file_content pathToPersistenceFile (files w) = Some text ->
     JSON_parse text = Throw e ->
     fst (load w) = Ok bootstrapAction /\
     dispatched (snd (load w)) = dispatched w ++ [bootstrapAction] /\
     console (snd (load w)) =
       console w ++ [could_not_parse pathToPersistenceFile]) /\
  (forall text jsonData,
     file_content pathToPersistenceFile (files w) = Some text ->
     JSON_parse text = Ok jsonData ->
     fst (load w) = Ok bootstrapAction /\
     dispatched (snd (load w)) =
       dispatched w ++
       [setStateAction
          (spreadPaths whitelistOfPartsOfStateToPersist jsonData (store w));
        bootstrapAction] /\
     console (snd (load w)) = console w).
Proof.
  unfold load, _loadState. cbn [run perform].
  split; [|split].
  - intro Hf. rewrite Hf. cbn. repeat split; reflexivity.
  - intros text e Hf Hp. rewrite Hf. cbn. rewrite Hf. cbn. rewrite Hp. cbn.
    repeat split; reflexivity.
  - intros text jsonData Hf Hp. rewrite Hf. cbn. rewrite Hf. cbn. rewrite Hp.
    cbn. rewrite <- app_assoc. repeat split; reflexivity.
Qed.

End Load.

Lemma load_phase_witness :
  let load fs :=
    run root (_loadState path parse bootstrap setState spreadPaths)
        (world_with fs) in
  (file_content path [] = None /\
   dispatched (snd (load [])) = [bootstrap]) /\
  (file_content path [(path, garbled)] = Some garbled /\
   parse garbled = Throw (Error "SyntaxError" (VStr garbled)) /\
   dispatched (snd (load [(path, garbled)])) = [bootstrap] /\
   console (snd (load [(path, garbled)])) = [could_not_parse path]) /\
  (file_content path [(path, persisted)] = Some persisted /\
   parse persisted =
     Ok (VObj [("projects", VObj [("listOfPaths", VArr [VStr "/a"])])]) /\
   dispatched (snd (load [(path, persisted)])) =
     [setState
        (VObj [("projects",
                VObj [("listOfPaths", VArr [VStr "/a"]); ("open", VNull)]);
               ("window", VNum (Fin 1))]);
      bootstrap]).
Proof.
  cbv zeta. split; [|split].
  - split; [reflexivity|].
    destruct (load_phase path parse bootstrap setState spreadPaths root
                         (world_with [])) as (H & _ & _).
    destruct (H eq_refl) as (_ & Hd & _). exact Hd.
  - split; [reflexivity|]. split; [reflexivity|].
    destruct (load_phase path parse bootstrap setState spreadPaths root
                         (world_with [(path, garbled)])) as (_ & H & _).
    destruct (H garbled _ eq_refl eq_refl) as (_ & Hd & Hc).
    split; [exact Hd | exact Hc].
  - split; [reflexivity|]. split; [reflexivity|].
    destruct (load_phase path parse bootstrap setState spreadPaths root
                         (world_with [(path, persisted)])) as (_ & _ & H).
    destruct (H persisted _ eq_refl eq_refl) as (_ & Hd & _).
    exact Hd.
Defined.


Section Watch.

Variable pathToPersistenceFile : string.
Variable JSON_stringify : value -> string.
Variable deepEqual : value -> value -> bool.
Variable rootReducer : value -> value -> value.

Let events := on_events pathToPersistenceFile JSON_stringify deepEqual rootReducer.
Let handler := onAction pathToPersistenceFile JSON_stringify deepEqual.


Lemma with_store_twice s s' w : with_store s (with_store s' w) = with_store s w.
Proof. reflexivity. Qed.



End Watch.

(** The example of the specification: two state changes within the
    delay, then the delay and the calls of the task are over.  One write
    is made, of the second state. *)
Example two_changes_one_write :
  let w := mkWorld [] (state_with []) [] []
                   (pickPathsFromObject (state_with [])) [] in
  let after :=
    on_events path show value_eqb root (None, w)
              [Dispatched (setState (state_with ["/a"]));
               Dispatched (setState (state_with ["/a"; "/b"]));
               Completed; Completed; Completed] in
  writes (snd after) = [(path, "/a,/b")] /\
  file_content path (files (snd after)) = Some "/a,/b" /\
  lastState (snd after) = pickPathsFromObject (state_with ["/a"; "/b"]).
Proof. repeat split; reflexivity. Qed.

(** An action that leaves the whitelisted part of the state as it was
    is followed by no write. *)
Example no_change_no_write :
  let w := mkWorld [] (state_with ["/a"]) [] []
                   (pickPathsFromObject (state_with ["/a"])) [] in
  let after :=
    on_events path show value_eqb root (None, w)
              [Dispatched bootstrap; Completed; Completed; Completed] in
  writes (snd after) = [] /\
  lastState (snd after) = lastState w.
Proof. repeat split; reflexivity. Qed.

(** [persistStateChanges] starts from the whitelisted part of the state
    of the store. *)
Example first_lastState :
  lastState (snd (run root persistStateChanges_init (world_with []))) =
  VObj [("projects", VObj [("listOfPaths", VArr [])])].
Proof. reflexivity. Qed.
End StatePersistorFacts.

(* ================================================================== *)
(** * Facts about the prop types *)
(* ================================================================== *)

Module PropTypesFacts.
Import JS PropTypes Scenario ReducerScenario.
Local Open Scope list_scope.

(** ** number *)

Lemma _sanitizeNumber_finite z : _sanitizeNumber (VNum (Fin z)) = VNum (Fin z).
Proof. reflexivity. Qed.

Lemma _sanitizeNumber_other v :
  (forall z, v <> VNum (Fin z)) -> _sanitizeNumber v = VUndefined.
Proof.
  intro H. destruct v as [| | |n| | | |]; try reflexivity.
  destruct n; try reflexivity. exfalso. exact (H z eq_refl).
Qed.

(** C8.  The [sanitize] of a config that [number] returns gives
    [undefined] for every value that is not a finite number, whether or
    not a sanitizer was given in [opts] and whatever that sanitizer
    does.  Without [opts.sanitize] a finite number is returned as it
    is; with [opts.sanitize], what the config's [sanitize] gives for a
    finite number is what [opts.sanitize] gives for it. *)
Theorem number_sanitize_composed call env defaultValue opts cfg :
  number call env defaultValue opts = Ok cfg ->
  (forall v, (forall z, v <> VNum (Fin z)) ->
             number_sanitize cfg v = Ok VUndefined) /\
  (truthy (opt_get opts "sanitize") = false ->
   forall z, number_sanitize cfg (VNum (Fin z)) = Ok (VNum (Fin z))) /\
  (truthy (opt_get opts "sanitize") = true ->
   forall z, number_sanitize cfg (VNum (Fin z)) =
             call_value call (opt_get opts "sanitize") [VNum (Fin z)]).
Proof.
  unfold number. destruct (validate_number env defaultValue opts); [|discriminate].
  cbn [bind]. intro H. injection H as <-. cbn [number_sanitize].
  destruct (truthy (opt_get opts "sanitize")) eqn:E; cbn [negb].
  - assert (Hopts : get_prop opts "sanitize" = opt_get opts "sanitize").
    { destruct opts; try reflexivity; discriminate E. }
    split; [|split].
    + intros v Hv. rewrite (_sanitizeNumber_other v Hv). reflexivity.
    + discriminate.
    + intros _ z. rewrite _sanitizeNumber_finite, Hopts. reflexivity.
  - split; [|split].
    + intros v Hv. rewrite (_sanitizeNumber_other v Hv). reflexivity.
    + intros _ z. reflexivity.
    + discriminate.
Qed.

Lemma number_sanitize_composed_witness :
  exists cfg,
    number arith development (VNum (Fin 0)) (VObj [("sanitize", VFun 0)]) = Ok cfg /\
    number_sanitize cfg (VStr "7") = Ok VUndefined /\
    number_sanitize cfg (VNum PosInf) = Ok VUndefined /\
    number_sanitize cfg (VNum (Fin 7)) = Ok (VNum (Fin 8)).
Proof.
  eexists. split; [reflexivity|].
  match goal with
  | |- number_sanitize ?c _ = _ /\ _ =>
      destruct (number_sanitize_composed arith development (VNum (Fin 0))
                  (VObj [("sanitize", VFun 0)]) c eq_refl) as (H1 & _ & H3)
  end.
  split; [apply H1; intros z Hz; discriminate Hz|].
  split; [apply H1; intros z Hz; discriminate Hz|].
  rewrite (H3 eq_refl). reflexivity.
Defined.

(** ** rgba *)

(** C9.  The [sanitize] of a config that [rgba] returns is the identity:
    every value comes back as it is, [opts.sanitize] or not. *)
Theorem rgba_sanitize_is_identity env defaultValue opts cfg :
  rgba env defaultValue opts = Ok cfg ->
  forall v, sanitize cfg v = Ok v.
Proof.
  unfold rgba.
  destruct (if checked env then _ else _); [|discriminate].
  cbn [bind]. intro H. injection H as <-. reflexivity.
Qed.

Lemma rgba_sanitize_is_identity_witness :
  exists cfg,
    rgba development (VObj [("r", VNum (Fin 7)); ("g", VStr "green")])
         (VObj [("sanitize", VFun 0)]) = Ok cfg /\
    sanitize cfg (VObj [("r", VNum (Fin 2)); ("alpha", VNum NaN)]) =
      Ok (VObj [("r", VNum (Fin 2)); ("alpha", VNum NaN)]) /\
    sanitize cfg (VStr "red") = Ok (VStr "red").
Proof.
  eexists. split; [reflexivity|].
  split;
    apply (rgba_sanitize_is_identity development
             (VObj [("r", VNum (Fin 7)); ("g", VStr "green")])
             (VObj [("sanitize", VFun 0)]) _ eq_refl).
Defined.

(** ** The checks of the constructors *)

(** [stringLiteral] has no check at all: it returns a config for every
    default, every options and every opts, in every build. *)
Lemma stringLiteral_never_throws env defaultValue options_ opts :
  exists cfg,
    stringLiteral env defaultValue options_ opts = Ok cfg /\
    default cfg = defaultValue /\
    label cfg = opt_get opts "label".
Proof. eexists. split; [reflexivity|]. split; reflexivity. Qed.

(** In a production build no constructor checks anything. *)
Lemma production_skips_checks call defaultValue opts :
  (exists cfg, number call production defaultValue opts = Ok cfg) /\
  (exists cfg, rgba production defaultValue opts = Ok cfg) /\
  (exists cfg, boolean production defaultValue opts = Ok cfg) /\
  (exists cfg, string_ call production defaultValue opts = Ok cfg).
Proof. repeat split; eexists; reflexivity. Qed.

(** In a development build [number], [boolean] and [string] throw on a
    default of another kind. *)
Lemma development_checks_default call opts :
  (forall d, (forall z, d <> VNum (Fin z)) ->
             exists e, number call development d opts = Throw e) /\
  (forall d, (forall b, d <> VBool b) ->
             exists e, boolean development d opts = Throw e) /\
  (forall d, (forall s, d <> VStr s) ->
             exists e, string_ call development d opts = Throw e).
Proof.
  split; [|split]; intros d Hd.
  - unfold number, validate_number. cbn [checked].
    destruct (validateCommonOpts development _ opts) as [[]|e];
      [|eexists; reflexivity].
    cbn [bind].
    destruct d as [| | |n| | | |]; try (eexists; reflexivity).
    destruct n; try (eexists; reflexivity). exfalso. exact (Hd z eq_refl).
  - unfold boolean. cbn [checked].
    destruct (validateCommonOpts development _ opts) as [[]|e];
      [|eexists; reflexivity].
    cbn [bind].
    destruct d; try (eexists; reflexivity). exfalso. exact (Hd b eq_refl).
  - unfold string_. cbn [checked].
    destruct (validateCommonOpts development _ opts) as [[]|e];
      [|eexists; reflexivity].
    cbn [bind].
    destruct d; try (eexists; reflexivity). exfalso. exact (Hd s eq_refl).
Qed.

(** C7 (the code departs from the claim).  In a development build
    [stringLiteral('x', {r: 'Red'})] returns a config although ['x'] is
    not a key of the options (the config's own [sanitize] rejects its
    default), and [stringLiteral('r', {r: 'Red'}, {label: ' '})] returns
    a config with the label [' '], which [string] and the other
    constructors refuse; [rgba] returns a config for a default that is
    a number. *)
Theorem stringLiteral_does_not_validate :
  (exists cfg,
     stringLiteral development (VStr "x") (VObj [("r", VStr "Red")]) VUndefined
       = Ok cfg /\
     default cfg = VStr "x" /\
     sanitize cfg (default cfg) = Ok VUndefined) /\
  (exists cfg,
     stringLiteral development (VStr "r") (VObj [("r", VStr "Red")])
                   (VObj [("label", VStr " ")]) = Ok cfg /\
     label cfg = VStr " ") /\
  (exists e,
     string_ arith development (VStr "r") (VObj [("label", VStr " ")])
       = Throw e) /\
  (exists cfg, rgba development (VNum (Fin 5)) VUndefined = Ok cfg).
Proof.
  split; [|split; [|split]].
  - eexists. split; [reflexivity|]. split; reflexivity.
  - eexists. split; reflexivity.
  - eexists. reflexivity.
  - eexists. reflexivity.
Qed.

End PropTypesFacts.

(* ================================================================== *)
(** * Facts about lists *)
(* ================================================================== *)

Module ListLemmas.
Local Open Scope list_scope.

Lemma find_snoc {A} (f : A -> bool) (l : list A) (x : A) :
  find f (l ++ [x]) =
  match find f l with
  | Some y => Some y
  | None => if f x then Some x else None
  end.
Proof.
  induction l as [|a l IH]; simpl; [reflexivity|].
  destruct (f a); [reflexivity | exact IH].
Qed.

Lemma last_default {A} (a : A) (l : list A) (d d' : A) :
  last (a :: l) d = last (a :: l) d'.
Proof.
  revert a. induction l as [|b l IH]; intro a; [reflexivity|].
  change (last (b :: l) d = last (b :: l) d'). apply IH.
Qed.

Lemma last_snoc {A} (l : list A) (x d : A) : last (l ++ [x]) d = x.
Proof.
  induction l as [|y l IH]; [reflexivity|].
  simpl. destruct (l ++ [x]) eqn:E; [destruct l; discriminate E | exact IH].
Qed.

End ListLemmas.

(* ================================================================== *)
(** * Facts about the active mode provider *)
(* ================================================================== *)

Module ActiveModeFacts.
Import JS ActiveModeProvider ActiveModeScenario ListLemmas.
Local Open Scope list_scope.

(** [MODES[mode]] is the name of the mode in upper case. *)
Lemma MODES_get isMac m :
  get_prop (MODES isMac) (mode_name m) = VStr (toUpperCase (mode_name m)).
Proof. destruct isMac, m; reflexivity. Qed.

(** No two modes have the same key code. *)
Lemma keyCode_of_inj isMac a b :
  keyCode_of isMac a = keyCode_of isMac b -> a = b.
Proof.
  destruct isMac, a, b; intro H; try reflexivity; vm_compute in H;
    discriminate H.
Qed.

Lemma Map_get_set k k' m entries :
  Map_get k (Map_set k' m entries) =
  if (k' =? k)%Z then Some m else Map_get k entries.
Proof.
  induction entries as [|[k0 m0] rest IH]; simpl.
  - reflexivity.
  - destruct (k0 =? k')%Z eqn:E0; simpl.
    + apply Z.eqb_eq in E0; subst k0. destruct (k' =? k)%Z; reflexivity.
    + rewrite IH. destruct (k' =? k)%Z eqn:E1; [|reflexivity].
      apply Z.eqb_eq in E1; subst k. rewrite E0. reflexivity.
Qed.

Lemma new_Map_snoc isMac l x :
  new_Map isMac (l ++ [x]) = Map_set (keyCode_of isMac x) x (new_Map isMac l).
Proof. unfold new_Map. rewrite fold_left_app. reflexivity. Qed.

(** The map of the component holds, under the key code of each listed
    mode, that mode, and nothing else. *)
Lemma new_Map_get isMac modes k :
  Map_get k (new_Map isMac modes) =
  match find (fun m => (keyCode_of isMac m =? k)%Z) modes with
  | Some m => Some m
  | None => None
  end.
Proof.
  induction modes as [|x l IH] using rev_ind.
  - reflexivity.
  - rewrite new_Map_snoc, Map_get_set, IH, find_snoc.
    destruct (keyCode_of isMac x =? k)%Z eqn:E.
    + destruct (find _ l) as [m|] eqn:F; [|reflexivity].
      apply find_some in F. destruct F as [_ F].
      apply Z.eqb_eq in E, F. f_equal.
      apply (keyCode_of_inj isMac). congruence.
    + destruct (find _ l); reflexivity.
Qed.

Lemma new_Map_listed isMac modes m :
  In m modes ->
  Map_get (keyCode_of isMac m) (new_Map isMac modes) = Some m.
Proof.
  intro H. rewrite new_Map_get.
  destruct (find _ modes) as [m'|] eqn:F.
  - apply find_some in F. destruct F as [_ F]. apply Z.eqb_eq in F.
    f_equal. apply (keyCode_of_inj isMac). exact F.
  - exfalso. apply (find_none _ _ F) in H. rewrite Z.eqb_refl in H.
    discriminate H.
Qed.

Lemma new_Map_only_listed isMac modes k m :
  Map_get k (new_Map isMac modes) = Some m ->
  In m modes /\ keyCode_of isMac m = k.
Proof.
  rewrite new_Map_get. destruct (find _ modes) as [m'|] eqn:F; [|discriminate].
  intro H. injection H as <-. apply find_some in F. destruct F as [F1 F2].
  apply Z.eqb_eq in F2. split; assumption.
Qed.

(** ** What every state of the component satisfies *)

Lemma each_differs_snoc prev l x :
  each_differs prev l ->
  same_mode (last l prev) x = false ->
  each_differs prev (l ++ [x]).
Proof.
  revert prev. induction l as [|y l IH]; intros prev H1 H2.
  - split; [exact H2 | exact I].
  - destruct H1 as [H1 H1']. split; [exact H1|].
    apply IH; [exact H1'|].
    destruct l as [|z l]; [exact H2|].
    rewrite (last_default z l y prev). exact H2.
Qed.

Lemma setMode_invariant isMac listed fn v c :
  invariant isMac listed fn c ->
  null_or_listed listed v ->
  invariant isMac listed fn (setMode v c).
Proof.
  intros (H1 & H2 & H3 & H4) Hv. unfold setMode.
  destruct (same_mode (activeMode c) v) eqn:E.
  - repeat split; assumption.
  - unfold invariant. cbn [has_onChange _mapOfKeycodeToMode activeMode
                           onChange_calls].
    split; [exact H1|]. split; [exact H2|]. split; [exact Hv|].
    rewrite H1. destruct fn.
    + destruct H4 as [H4 H5]. split.
      * apply last_snoc.
      * apply each_differs_snoc; [exact H5|]. rewrite H4. exact E.
    + exact H4.
Qed.

Lemma handle_invariant isMac listed fn c ev :
  invariant isMac listed fn c -> invariant isMac listed fn (handle isMac c ev).
Proof.
  intro H.
  assert (Hnull : null_or_listed listed VNull) by (left; reflexivity).
  destruct ev as [e| | | | |]; cbn [handle].
  - unfold handleKeyDown.
    destruct (_isMouseDown c); [exact H|].
    destruct (match target e with Some _ => _ | None => false end); [exact H|].
    destruct (Map_get (keyCode e) (_mapOfKeycodeToMode c)) as [m|] eqn:E;
      [|exact H].
    apply setMode_invariant; [exact H|].
    destruct H as (_ & H2 & _). rewrite H2 in E.
    apply new_Map_only_listed in E. destruct E as [E _].
    right. exists m. split; [exact E | apply MODES_get].
  - unfold handleKeyUp.
    destruct (activeMode c); try exact H;
      apply setMode_invariant; assumption.
  - exact H.
  - exact H.
  - apply setMode_invariant; assumption.
  - apply setMode_invariant; assumption.
Qed.

Lemma constructor_invariant isMac listed fn :
  invariant isMac listed fn (constructor isMac listed fn).
Proof.
  unfold invariant, constructor. cbn.
  split; [reflexivity|]. split; [reflexivity|]. split; [left; reflexivity|].
  destruct fn; [split; [reflexivity | exact I] | reflexivity].
Qed.

Lemma after_invariant isMac listed fn c evs :
  invariant isMac listed fn c -> invariant isMac listed fn (after isMac c evs).
Proof.
  revert c. induction evs as [|ev evs IH]; intros c H; [exact H|].
  apply IH. apply handle_invariant. exact H.
Qed.

(** Whatever happens, the active mode is [null] or the upper-case name
    of one of the modes given in the props. *)
Theorem active_mode_is_null_or_listed isMac listed fn evs :
  null_or_listed listed
    (activeMode (after isMac (constructor isMac listed fn) evs)).
Proof.
  destruct (after_invariant isMac listed fn _ evs
              (constructor_invariant isMac listed fn)) as (_ & _ & H & _).
  exact H.
Qed.

(** The listener of the props is called on every change of the active
    mode and only then: the last mode it was given is the active mode,
    and no call repeats the mode of the call before it; without a
    listener nothing is called. *)
Theorem listener_knows_the_active_mode isMac listed evs :
  (let c := after isMac (constructor isMac listed true) evs in
   last (onChange_calls c) VNull = activeMode c /\
   each_differs VNull (onChange_calls c)) /\
  onChange_calls (after isMac (constructor isMac listed false) evs) = [].
Proof.
  split.
  - destruct (after_invariant isMac listed true _ evs
                (constructor_invariant isMac listed true)) as (_ & _ & _ & H).
    exact H.
  - destruct (after_invariant isMac listed false _ evs
                (constructor_invariant isMac listed false)) as (_ & _ & _ & H).
    exact H.
Qed.

(** After a key is released, and after the mouse enters the document
    or the window gets the focus, no mode is active. *)
Theorem key_up_clears_the_mode isMac listed fn evs ev :
  ev = keyup \/ ev = mouseenter \/ ev = focus ->
  activeMode (handle isMac (after isMac (constructor isMac listed fn) evs) ev)
  = VNull.
Proof.
  intro Hev.
  destruct (after_invariant isMac listed fn _ evs
              (constructor_invariant isMac listed fn)) as (_ & _ & H & _).
  set (c := after isMac (constructor isMac listed fn) evs) in *.
  assert (Hreset : activeMode (resetActiveMode c) = VNull).
  { unfold resetActiveMode, setMode.
    destruct (same_mode (activeMode c) VNull) eqn:E; [|reflexivity].
    destruct (activeMode c); try discriminate E. reflexivity. }
  destruct Hev as [->|[->| ->]]; cbn [handle]; try exact Hreset.
  unfold handleKeyUp.
  destruct H as [H|(m & _ & H)]; rewrite H; [exact H | exact Hreset].
Qed.

Lemma key_up_clears_the_mode_witness :
  (keyup = keyup \/ keyup = mouseenter \/ keyup = focus) /\
  activeMode
    (handle true
       (after true (constructor true [mode_shift; mode_d] true)
              [keydown (mkKeyboardEvent 68 None)])
       keyup) = VNull.
Proof.
  split; [left; reflexivity|].
  apply (key_up_clears_the_mode true [mode_shift; mode_d] true
           [keydown (mkKeyboardEvent 68 None)] keyup).
  left. reflexivity.
Defined.

(** While the mouse button is down, no key that is pressed changes
    anything. *)
Theorem keys_are_ignored_while_mouse_is_down isMac c es :
  after isMac (handleMouseDown c) (map keydown es) = handleMouseDown c.
Proof.
  induction es as [|e es IH]; [reflexivity|].
  cbn [map after fold_left handle]. unfold handleKeyDown at 1.
  cbn [handleMouseDown set_isMouseDown _isMouseDown]. exact IH.
Qed.

(** With the mouse button up and outside an INPUT element, pressing the
    key of a listed mode makes that mode the active one. *)
Theorem key_of_listed_mode_activates isMac listed fn evs m e :
  let c := after isMac (constructor isMac listed fn) evs in
  In m listed ->
  _isMouseDown c = false ->
  keyCode e = keyCode_of isMac m ->
  target e <> Some "INPUT" ->
  activeMode (handleKeyDown isMac e c) = VStr (toUpperCase (mode_name m)).
Proof.
  intros c Hin Hup Hkey Htarget.
  destruct (after_invariant isMac listed fn _ evs
              (constructor_invariant isMac listed fn)) as (_ & Hmap & _ & _).
  fold c in Hmap. unfold handleKeyDown. rewrite Hup.
  assert (Hinput : match target e with
                   | Some tagName =>
                       (tagName =? "INPUT")
                       && negb (existsb (Z.eqb (keyCode e)) [91%Z])
                   | None => false
                   end = false).
  { destruct (target e) as [t|]; [|reflexivity].
    destruct (t =? "INPUT") eqn:E; [|reflexivity].
    apply String.eqb_eq in E. subst t. exfalso. apply Htarget. reflexivity. }
  rewrite Hinput, Hmap, Hkey, (new_Map_listed isMac listed m Hin), MODES_get.
  unfold setMode.
  destruct (same_mode (activeMode c) (VStr (toUpperCase (mode_name m)))) eqn:E;
    [|reflexivity].
  destruct (activeMode c); try discriminate E.
  cbn [same_mode] in E. apply String.eqb_eq in E. subst. reflexivity.
Qed.

Lemma key_of_listed_mode_activates_witness :
  In mode_super [mode_shift; mode_super] /\
  _isMouseDown (after false (constructor false [mode_shift; mode_super] true)
                      [mousedown; mouseup]) = false /\
  keyCode (mkKeyboardEvent 17 (Some "DIV")) = keyCode_of false mode_super /\
  target (mkKeyboardEvent 17 (Some "DIV")) <> Some "INPUT" /\
  activeMode
    (handleKeyDown false (mkKeyboardEvent 17 (Some "DIV"))
       (after false (constructor false [mode_shift; mode_super] true)
              [mousedown; mouseup])) = VStr "SUPER".
Proof.
  assert (H1 : In mode_super [mode_shift; mode_super])
    by (right; left; reflexivity).
  assert (H4 : target (mkKeyboardEvent 17 (Some "DIV")) <> Some "INPUT")
    by (cbn; intro H; discriminate H).
  split; [exact H1|]. split; [reflexivity|]. split; [reflexivity|].
  split; [exact H4|].
  exact (key_of_listed_mode_activates false [mode_shift; mode_super] true
           [mousedown; mouseup] mode_super (mkKeyboardEvent 17 (Some "DIV"))
           H1 eq_refl eq_refl H4).
Defined.

(** Where the platform is not a Mac, no key pressed in an INPUT element
    changes anything: the only key let through there has the code 91,
    and no mode has that code. *)
Theorem keys_in_an_input_are_ignored_off_mac listed fn evs e :
  let c := after false (constructor false listed fn) evs in
  target e = Some "INPUT" ->
  handleKeyDown false e c = c.
Proof.
  intros c Ht.
  destruct (after_invariant false listed fn _ evs
              (constructor_invariant false listed fn)) as (_ & Hmap & _ & _).
  fold c in Hmap. unfold handleKeyDown.
  destruct (_isMouseDown c); [reflexivity|].
  rewrite Ht. cbn [String.eqb existsb andb orb negb].
  change ("INPUT" =? "INPUT") with true. cbn [andb].
  destruct (keyCode e =? 91)%Z eqn:E; cbn [orb negb]; [|reflexivity].
  apply Z.eqb_eq in E. rewrite Hmap, E.
  destruct (Map_get 91 (new_Map false listed)) as [m|] eqn:G; [|reflexivity].
  apply new_Map_only_listed in G. destruct G as [_ G].
  destruct m; vm_compute in G; discriminate G.
Qed.

Lemma keys_in_an_input_are_ignored_off_mac_witness :
  target (mkKeyboardEvent 17 (Some "INPUT")) = Some "INPUT" /\
  handleKeyDown false (mkKeyboardEvent 17 (Some "INPUT"))
                (constructor false [mode_super] true) =
  constructor false [mode_super] true.
Proof.
  split; [reflexivity|].
  exact (keys_in_an_input_are_ignored_off_mac [mode_super] true []
           (mkKeyboardEvent 17 (Some "INPUT")) eq_refl).
Defined.

End ActiveModeFacts.

(* ================================================================== *)
(** * Facts about the list manager *)
(* ================================================================== *)

Module ListManagerFacts.
Import JS ListManager ListManagerScenario ListLemmas.
Local Open Scope list_scope.

Section WithList.

Variable List_name : value -> value.

(** The constructor of [List] keeps a name that is a string. *)
Hypothesis keeps_name : forall s, List_name (VStr s) = VStr s.

Lemma named_name s l : named s l = true -> name l = VStr s.
Proof.
  unfold named. destruct (name l); try discriminate.
  intro H. apply String.eqb_eq in H. subst. reflexivity.
Qed.

Lemma get_cases s m :
  get List_name (VStr s) m =
  if (String.length s <? 3)%nat then
    Throw (Error "Wrong name for a list" (VStr s))
  else match find (named s) (_lists m) with
       | Some l => Ok (l, m)
       | None => Ok (mkList (made m) (VStr s),
                     mkManager (_lists m ++ [mkList (made m) (VStr s)])
                               (S (made m)))
       end.
Proof.
  unfold get, _getListByName. cbn [to_string].
  destruct (String.length s <? 3)%nat; [reflexivity|].
  cbn [bind]. rewrite keeps_name. reflexivity.
Qed.

(** [get] with a name of three characters or more returns a list of
    that name which the manager has from then on, and keeps every list
    it had; with a shorter name it throws. *)
Theorem get_returns_a_list_of_that_name s m :
  (3 <= String.length s ->
   exists l m',
     get List_name (VStr s) m = Ok (l, m') /\
     name l = VStr s /\
     In l (_lists m') /\
     (forall x, In x (_lists m) -> In x (_lists m'))) /\
  (String.length s < 3 -> exists e, get List_name (VStr s) m = Throw e).
Proof.
  rewrite get_cases. split; intro H.
  - destruct (String.length s <? 3)%nat eqn:E;
      [apply Nat.ltb_lt in E; lia|].
    destruct (find (named s) (_lists m)) as [l|] eqn:F.
    + exists l, m. apply find_some in F. destruct F as [F1 F2].
      split; [reflexivity|]. split; [apply named_name; exact F2|].
      split; [exact F1 | auto].
    + eexists. eexists. split; [reflexivity|]. split; [reflexivity|].
      cbn [_lists]. split.
      * apply in_or_app. right. left. reflexivity.
      * intros x Hx. apply in_or_app. left. exact Hx.
  - apply Nat.ltb_lt in H. rewrite H. eexists. reflexivity.
Qed.

(** Asking twice for the same name gives the same list, and the second
    time nothing is made. *)
Theorem get_twice_is_get_once s m l m' :
  get List_name (VStr s) m = Ok (l, m') ->
  get List_name (VStr s) m' = Ok (l, m').
Proof.
  rewrite !get_cases.
  destruct (String.length s <? 3)%nat; [discriminate|].
  destruct (find (named s) (_lists m)) as [l0|] eqn:F; intro H;
    injection H as <- <-.
  - rewrite F. reflexivity.
  - cbn [_lists]. rewrite find_snoc, F.
    unfold named at 1. cbn [name]. rewrite String.eqb_refl. reflexivity.
Qed.

(** ** The lists of a manager stay different objects with different
    names *)

Lemma find_none_not_named s (lists : list List) :
  find (named s) lists = None -> ~ In (VStr s) (map name lists).
Proof.
  intros F H. apply in_map_iff in H. destruct H as (x & Hx & Hin).
  pose proof (find_none _ _ F x Hin) as Hn.
  unfold named in Hn. rewrite Hx, String.eqb_refl in Hn. discriminate Hn.
Qed.

Lemma get_well_formed s m :
  well_formed m ->
  well_formed (apply_op List_name m (Get s)).
Proof.
  intros (H1 & H2 & H3). cbn [apply_op]. rewrite get_cases.
  destruct (String.length s <? 3)%nat; [repeat split; assumption|].
  destruct (find (named s) (_lists m)) as [l|] eqn:F;
    [repeat split; assumption|].
  unfold well_formed. cbn [_lists made]. split; [|split].
  - apply Forall_app. split.
    + eapply Forall_impl; [|exact H1]. cbn. intros; lia.
    + constructor; [cbn; lia | constructor].
  - rewrite map_app. cbn [map list_id].
    apply NoDup_app; [exact H2 | constructor; [intros []|constructor] |].
    intros x Hx [Hx'|[]]. subst x.
    apply in_map_iff in Hx. destruct Hx as (y & Hy & Hin).
    rewrite Forall_forall in H1. specialize (H1 y Hin). lia.
  - rewrite map_app. cbn [map name].
    apply NoDup_app; [exact H3 | constructor; [intros []|constructor] |].
    intros x Hx [Hx'|[]]. subst x.
    exact (find_none_not_named s _ F Hx).
Qed.

Lemma In_pluckOneItem x a item : In x (pluckOneItem a item) -> In x a.
Proof.
  induction a as [|y a IH]; simpl; [auto|].
  destruct (same_list y item); [auto|].
  intros [H|H]; [left; exact H | right; apply IH; exact H].
Qed.

Lemma NoDup_map_pluckOneItem {B} (f : List -> B) a item :
  NoDup (map f a) -> NoDup (map f (pluckOneItem a item)).
Proof.
  induction a as [|y a IH]; simpl; intro H; [exact H|].
  inversion H as [|? ? H1 H2]; subst.
  destruct (same_list y item); [exact H2|].
  simpl. constructor; [|apply IH; exact H2].
  intro Hin. apply H1. apply in_map_iff in Hin.
  destruct Hin as (z & Hz & Hin). apply in_map_iff. exists z.
  split; [exact Hz | eapply In_pluckOneItem; exact Hin].
Qed.

Lemma remove_well_formed l m :
  well_formed m -> well_formed (apply_op List_name m (Remove l)).
Proof.
  intros (H1 & H2 & H3). unfold well_formed. cbn [apply_op _removeList _lists made].
  split; [|split].
  - rewrite Forall_forall in *. intros x Hx. apply H1.
    eapply In_pluckOneItem. exact Hx.
  - apply NoDup_map_pluckOneItem. exact H2.
  - apply NoDup_map_pluckOneItem. exact H3.
Qed.

Lemma apply_ops_well_formed m ops :
  well_formed m -> well_formed (apply_ops List_name m ops).
Proof.
  revert m. induction ops as [|o ops IH]; intros m H; [exact H|].
  apply IH. destruct o; [apply get_well_formed | apply remove_well_formed];
    exact H.
Qed.

Lemma constructor_well_formed : well_formed constructor.
Proof. repeat split; constructor. Qed.

(** Whatever lists are asked for and removed, no two lists of the
    manager have the same name, and no list is kept twice. *)
Theorem names_stay_unique ops :
  NoDup (map name (getAll (apply_ops List_name constructor ops))) /\
  NoDup (map list_id (getAll (apply_ops List_name constructor ops))).
Proof.
  destruct (apply_ops_well_formed constructor ops constructor_well_formed)
    as (_ & H2 & H3).
  split; assumption.
Qed.

Lemma pluck_takes_the_name (a : list List) l :
  NoDup (map list_id a) ->
  NoDup (map name a) ->
  In l a ->
  ~ In (name l) (map name (pluckOneItem a l)).
Proof.
  induction a as [|y a IH]; intros Hid Hname Hin; [destruct Hin|].
  inversion Hid as [|? ? Hid1 Hid2]; subst.
  inversion Hname as [|? ? Hn1 Hn2]; subst.
  cbn [pluckOneItem]. destruct (same_list y l) eqn:E.
  - unfold same_list in E. apply Nat.eqb_eq in E.
    destruct Hin as [->|Hin]; [exact Hn1|].
    exfalso. apply Hid1. rewrite E. apply in_map. exact Hin.
  - destruct Hin as [->|Hin].
    + unfold same_list in E. rewrite Nat.eqb_refl in E. discriminate E.
    + cbn [map]. intros [H|H].
      * apply Hn1. rewrite H. apply in_map. exact Hin.
      * exact (IH Hid2 Hn2 Hin H).
Qed.

Lemma not_named_find_none s (lists : list List) :
  ~ In (VStr s) (map name lists) -> find (named s) lists = None.
Proof.
  induction lists as [|y a IH]; intro H; [reflexivity|].
  cbn [find]. destruct (named s y) eqn:E.
  - exfalso. apply H. left. apply named_name. exact E.
  - apply IH. intro Hin. apply H. right. exact Hin.
Qed.

(** A list that was removed is not found again: asking for its name
    makes a new list, another object with the same name. *)
Theorem removed_list_is_made_anew ops s l m1 :
  get List_name (VStr s) (apply_ops List_name constructor ops) = Ok (l, m1) ->
  exists l' m2,
    get List_name (VStr s) (_removeList l m1) = Ok (l', m2) /\
    name l' = name l /\
    list_id l' <> list_id l /\
    ~ In l (_lists (_removeList l m1)).
Proof.
  intro Hget.
  pose proof (apply_ops_well_formed constructor ops constructor_well_formed)
    as Hwf0.
  pose proof (get_well_formed s _ Hwf0) as Hwf.
  cbn [apply_op] in Hwf. rewrite Hget in Hwf.
  destruct Hwf as (H1 & H2 & H3).
  assert (Hl : In l (_lists m1) /\ name l = VStr s).
  { rewrite get_cases in Hget.
    destruct (String.length s <? 3)%nat; [discriminate|].
    destruct (find (named s) _) as [l0|] eqn:F; injection Hget as <- <-.
    - apply find_some in F. destruct F as [F1 F2].
      split; [exact F1 | apply named_name; exact F2].
    - cbn [_lists]. split; [|reflexivity].
      apply in_or_app. right. left. reflexivity. }
  destruct Hl as [Hin Hname].
  assert (Hlen : (String.length s <? 3)%nat = false).
  { rewrite get_cases in Hget.
    destruct (String.length s <? 3)%nat; [discriminate | reflexivity]. }
  pose proof (pluck_takes_the_name _ l H2 H3 Hin) as Hgone.
  rewrite get_cases, Hlen. cbn [_removeList _lists made].
  rewrite (not_named_find_none s); [|rewrite <- Hname; exact Hgone].
  eexists. eexists. split; [reflexivity|]. cbn [name list_id].
  split; [symmetry; exact Hname|]. split.
  - rewrite Forall_forall in H1. specialize (H1 l Hin). lia.
  - intro Hin'. apply Hgone. apply in_map. exact Hin'.
Qed.

End WithList.

Lemma get_returns_a_list_of_that_name_witness :
  (forall s, given_name (VStr s) = VStr s) /\
  3 <= String.length "main" /\
  String.length "ab" < 3 /\
  (exists l m', get given_name (VStr "main") constructor = Ok (l, m') /\
                name l = VStr "main" /\ In l (_lists m')) /\
  (exists e, get given_name (VStr "ab") constructor = Throw e).
Proof.
  assert (H0 : forall s, given_name (VStr s) = VStr s) by reflexivity.
  assert (H1 : 3 <= String.length "main") by (cbn; lia).
  assert (H2 : String.length "ab" < 3) by (cbn; lia).
  split; [exact H0|]. split; [exact H1|]. split; [exact H2|].
  split.
  - destruct (get_returns_a_list_of_that_name given_name H0 "main" constructor)
      as [H _].
    destruct (H H1) as (l & m' & Hg & Hn & Hi & _).
    exists l, m'. repeat split; assumption.
  - destruct (get_returns_a_list_of_that_name given_name H0 "ab" constructor)
      as [_ H].
    exact (H H2).
Defined.

Lemma get_twice_is_get_once_witness :
  (forall s, given_name (VStr s) = VStr s) /\
  exists l m',
    get given_name (VStr "main") constructor = Ok (l, m') /\
    get given_name (VStr "main") m' = Ok (l, m') /\
    List.length (_lists m') = 1.
Proof.
  assert (H0 : forall s, given_name (VStr s) = VStr s) by reflexivity.
  split; [exact H0|].
  eexists. eexists. split; [reflexivity|]. split; [|reflexivity].
  apply (get_twice_is_get_once given_name H0 "main" constructor). reflexivity.
Defined.

Lemma names_stay_unique_witness :
  (forall s, given_name (VStr s) = VStr s) /\
  NoDup (map name (getAll (apply_ops given_name constructor
                                     [Get "main"; Get "side"; Get "main"]))).
Proof.
  assert (H0 : forall s, given_name (VStr s) = VStr s) by reflexivity.
  split; [exact H0|].
  destruct (names_stay_unique given_name H0 [Get "main"; Get "side"; Get "main"])
    as [H _].
  exact H.
Defined.

Lemma removed_list_is_made_anew_witness :
  (forall s, given_name (VStr s) = VStr s) /\
  exists l m1 l' m2,
    get given_name (VStr "main") (apply_ops given_name constructor [Get "side"])
    = Ok (l, m1) /\
    get given_name (VStr "main") (_removeList l m1) = Ok (l', m2) /\
    list_id l' <> list_id l.
Proof.
  assert (H0 : forall s, given_name (VStr s) = VStr s) by reflexivity.
  split; [exact H0|].
  eexists. eexists.
  match goal with
  | |- exists l' m2, ?G = Ok (?l, ?m1) /\ _ =>
      assert (Hget : G = Ok (l, m1)) by reflexivity
  end.
  destruct (removed_list_is_made_anew given_name H0 [Get "side"] "main" _ _ Hget)
    as (l' & m2 & H1 & _ & H3 & _).
  exists l', m2. split; [exact Hget|]. split; assumption.
Defined.

End ListManagerFacts.

(* ================================================================== *)
(** * More facts about dict atoms *)
(* ================================================================== *)

Module DictAtomMore.
Import JS Lodash DictAtom DictAtomCalls WellFormed Scenario DictAtomScenario.
Import JSFacts SpreadFacts.
Local Open Scope list_scope.

Lemma fold_internalMap {X} (f : atom -> X -> atom) (g : fields -> X -> fields)
  (xs : list X) :
  (forall a x, _internalMap (f a x) = g (_internalMap a) x) ->
  forall a, _internalMap (fold_left f xs a) = fold_left g xs (_internalMap a).
Proof.
  intro H. induction xs as [|x xs IH]; intro a; [reflexivity|].
  cbn [fold_left]. rewrite IH, H. reflexivity.
Qed.

(** The map of the atom after [_change]: the keys to delete are
    deleted, then every visit of [forEach] is stored. *)
Lemma internalMap_change o ks a :
  _internalMap (_change o ks a) =
  fold_left (fun m vk => set_field (key_name (snd vk)) (fst vk) m) (forEach o)
    (fold_left (fun m k => delete_field (key_name k) m) ks (_internalMap a)).
Proof.
  unfold _change.
  set (refs := fold_left _ ks (mapValues o _)).
  set (a1 := fold_left _ (forEach (VObj refs)) a).
  set (a2 := fold_left _ ks a1).
  set (a3 := fold_left keep (forEach o) a2).
  assert (H3 : _internalMap a3 =
               fold_left (fun m vk => set_field (key_name (snd vk)) (fst vk) m)
                         (forEach o) (_internalMap a2)).
  { apply fold_internalMap. reflexivity. }
  assert (H2 : _internalMap a2 =
               fold_left (fun m k => delete_field (key_name k) m) ks
                         (_internalMap a1)).
  { apply (fold_internalMap
             (fun acc k => with_map (delete_field (key_name k) (_internalMap acc)) acc)
             (fun m k => delete_field (key_name k) m)). reflexivity. }
  assert (H1 : _internalMap a1 = _internalMap a).
  { unfold a1.
    rewrite (fold_internalMap _ (fun m (_ : value * key) => m)).
    - generalize (forEach (VObj refs)). intro l.
      induction l; [reflexivity | assumption].
    - intros b x. destruct (truthy (fst x)); reflexivity. }
  destruct (hasTappers a3); cbn [emit _internalMap]; rewrite H3, H2, H1;
    reflexivity.
Qed.

Lemma prop_lookup a k :
  prop a (KName k) = match lookup k (_internalMap a) with
                     | Some v => v
                     | None => VUndefined
                     end.
Proof.
  unfold prop, hasOwn. cbn [key_name].
  destruct (lookup k (_internalMap a)); reflexivity.
Qed.

Lemma forEach_plain (o : fields) :
  isArrayLike (VObj o) = false ->
  forEach (VObj o) = map (fun kv => (snd kv, KName (fst kv))) o.
Proof. intro H. unfold forEach. rewrite H. reflexivity. Qed.

Lemma internalMap_assign_plain (o : fields) a :
  isArrayLike (VObj o) = false ->
  _internalMap (assign (VObj o) a) = spread_into (_internalMap a) (VObj o).
Proof.
  intro H. unfold assign. rewrite internalMap_change, (forEach_plain o H).
  cbn [fold_left]. unfold spread_into. cbn [own_entries]. clear H.
  generalize (_internalMap a). induction o as [|[k v] rest IH]; intro m;
    [reflexivity|].
  cbn [map fold_left fst snd key_name]. apply IH.
Qed.

Lemma lookup_assign_plain (o : fields) a k :
  isArrayLike (VObj o) = false ->
  NoDup (own_keys o) ->
  lookup k (_internalMap (assign (VObj o) a)) =
  match lookup k o with
  | Some v => Some v
  | None => lookup k (_internalMap a)
  end.
Proof.
  intros Hal Hnd. rewrite (internalMap_assign_plain o a Hal).
  apply lookup_spread_into. exact Hnd.
Qed.

(** ** The calls through the map *)

Lemma prop_call_ordinary a k :
  hasOwn (_internalMap a) "hasOwnProperty" = false ->
  prop_call a k = Some (Ok (prop a k)).
Proof.
  unfold hasOwn, prop_call, hasOwnProperty_call, prop, get_prop.
  destruct (lookup "hasOwnProperty" (_internalMap a)); [discriminate|].
  intros _. unfold hasOwn. cbn [own_entries].
  destruct (lookup (key_name k) (_internalMap a)); reflexivity.
Qed.

Lemma _change_call_ordinary o ks a :
  hasOwn (_internalMap a) "hasOwnProperty" = false ->
  stores___proto__ o = false ->
  _change_call o ks a = Some (Ok (_change o ks a)).
Proof.
  unfold hasOwn, _change_call. intros H1 H2.
  destruct (lookup "hasOwnProperty" (_internalMap a)); [discriminate|].
  rewrite H2. destruct (asks_the_map o ks); reflexivity.
Qed.

Lemma stores_plain (o : fields) :
  isArrayLike (VObj o) = false ->
  stores___proto__ (VObj o) = hasOwn o "__proto__".
Proof.
  intro H. unfold stores___proto__. rewrite (forEach_plain o H).
  unfold hasOwn. clear H.
  induction o as [|[k v] rest IH]; [reflexivity|].
  cbn [map existsb fst snd key_name lookup].
  destruct (k =? "__proto__"); [reflexivity | exact IH].
Qed.

Lemma hasOwn_assign_plain (o : fields) a k :
  plain o ->
  hasOwn (_internalMap (assign (VObj o) a)) k =
  hasOwn o k || hasOwn (_internalMap a) k.
Proof.
  intros [Hal Hnd]. unfold hasOwn.
  rewrite (lookup_assign_plain o a k Hal Hnd).
  destruct (lookup k o); reflexivity.
Qed.

Lemma shadowed_prop a k :
  shadowed a -> prop_call a k = Some (Throw not_a_function).
Proof.
  intros (v & Hv & Hf). unfold prop_call, hasOwnProperty_call. rewrite Hv.
  destruct v; try reflexivity. exfalso. apply Hf. reflexivity.
Qed.

Lemma shadowed_change o ks a :
  shadowed a ->
  asks_the_map o ks = true ->
  _change_call o ks a = Some (Throw not_a_function).
Proof.
  intros (v & Hv & Hf) Hasks. unfold _change_call. rewrite Hasks, Hv.
  destruct v; try reflexivity. exfalso. apply Hf. reflexivity.
Qed.

(** ** _change *)

(** [_change(o, keysToDelete)] on an atom whose map has no own
    [hasOwnProperty], with an [o] that does not store under
    [__proto__], runs to its end and emits one event when the atom has
    a tapper, and none otherwise; the event carries [o] itself as
    [overriddenRefs], the keys to delete as [deletedKeys], and as
    [addedKeys] the keys visited in [o] that the atom did not have. *)
Theorem change_emits_one_event o ks a :
  hasOwn (_internalMap a) "hasOwnProperty" = false ->
  stores___proto__ o = false ->
  exists a',
    _change_call o ks a = Some (Ok a') /\
    emitted a' =
    if hasTappers a
    then emitted a ++ [mkChange o ks (new_keys o a)]
    else emitted a.
Proof.
  intros H1 H2. exists (_change o ks a).
  split; [apply _change_call_ordinary; assumption|].
  apply DictAtomFacts._change_emitted.
Qed.

Lemma change_emits_one_event_witness :
  let a := tap (constructor (VObj [("a", one)])) in
  hasOwn (_internalMap a) "hasOwnProperty" = false /\
  stores___proto__ (VObj [("b", two)]) = false /\
  exists a',
    _change_call (VObj [("b", two)]) [KName "a"] a = Some (Ok a') /\
    emitted a' = [mkChange (VObj [("b", two)]) [KName "a"] [KName "b"]].
Proof.
  cbv zeta. split; [reflexivity|]. split; [reflexivity|].
  destruct (change_emits_one_event (VObj [("b", two)]) [KName "a"]
              (tap (constructor (VObj [("a", one)]))) eq_refl eq_refl)
    as (a' & H1 & H2).
  exists a'. split; [exact H1 | exact H2].
Defined.

(** ** The constructor *)



(** ** assign and setProp *)

(** After [assign(o)], for a partial [o] that lodash walks over its
    keys, [prop(k)] is [o[k]] for every key of [o] and what it was for
    every other key; atom and partial have neither an own
    [hasOwnProperty] nor an own [__proto__], and so has the atom
    afterwards. *)
Theorem assign_overlays (o : fields) a :
  ordinary (_internalMap a) ->
  ordinary o ->
  plain o ->
  exists a',
    assign_call (VObj o) a = Some (Ok a') /\
    ordinary (_internalMap a') /\
    forall k,
      prop_call a' (KName k) =
      match lookup k o with
      | Some v => Some (Ok v)
      | None => prop_call a (KName k)
      end.
Proof.
  intros [Ha1 Ha2] [Ho1 Ho2] Hpl. pose proof Hpl as [Hal Hnd].
  exists (assign (VObj o) a). split; [|split].
  - apply _change_call_ordinary; [exact Ha1|].
    rewrite (stores_plain o Hal). exact Ho2.
  - split; rewrite (hasOwn_assign_plain o a _ Hpl).
    + rewrite Ho1, Ha1. reflexivity.
    + rewrite Ho2, Ha2. reflexivity.
  - intro k. rewrite !prop_call_ordinary.
    + rewrite !prop_lookup, (lookup_assign_plain o a k Hal Hnd).
      destruct (lookup k o); reflexivity.
    + exact Ha1.
    + rewrite (hasOwn_assign_plain o a _ Hpl), Ho1, Ha1. reflexivity.
Qed.

Lemma assign_overlays_witness :
  let o := [("b", three); ("c", one)] in
  let a := constructor (VObj [("a", one); ("b", two)]) in
  ordinary (_internalMap a) /\ ordinary o /\ plain o /\
  exists a',
    assign_call (VObj o) a = Some (Ok a') /\
    prop_call a' (KName "a") = Some (Ok one) /\
    prop_call a' (KName "b") = Some (Ok three).
Proof.
  cbv zeta.
  assert (Ha : ordinary (_internalMap (constructor (VObj [("a", one); ("b", two)]))))
    by (split; reflexivity).
  assert (Ho : ordinary [("b", three); ("c", one)]) by (split; reflexivity).
  assert (Hp : plain [("b", three); ("c", one)]).
  { split; [reflexivity|]. cbn. repeat constructor; cbn; intuition discriminate. }
  split; [exact Ha|]. split; [exact Ho|]. split; [exact Hp|].
  destruct (assign_overlays _ _ Ha Ho Hp) as (a' & H1 & _ & H2).
  exists a'. split; [exact H1|]. split.
  - rewrite (H2 "a"). reflexivity.
  - rewrite (H2 "b"). reflexivity.
Defined.

Lemma plain_one k v :
  k <> "length" \/ isLength v = false -> plain [(k, v)].
Proof.
  intro H. split.
  - unfold isArrayLike, get_prop. cbn [own_entries lookup length_of].
    destruct (k =? "length") eqn:E.
    + destruct H as [H|H]; [|exact H].
      apply String.eqb_eq in E. contradiction.
    + reflexivity.
  - cbn. constructor; [intros []|constructor].
Qed.

Lemma ordinary_one k v :
  k <> "hasOwnProperty" -> k <> "__proto__" -> ordinary [(k, v)].
Proof.
  intros H1 H2. unfold ordinary, hasOwn. cbn [lookup].
  apply String.eqb_neq in H1, H2. rewrite H1, H2. split; reflexivity.
Qed.

(** [setProp(k, v)] followed by [prop(k)] gives [v], and leaves every
    other property as it was: on an atom with neither an own
    [hasOwnProperty] nor an own [__proto__], for a key that is neither
    of the two, unless [k] is ['length'] and [v] is a length (a partial
    that lodash walks as an array). *)
Theorem setProp_then_prop k v a :
  ordinary (_internalMap a) ->
  k <> "hasOwnProperty" ->
  k <> "__proto__" ->
  k <> "length" \/ isLength v = false ->
  exists a',
    setProp_call k v a = Some (Ok a') /\
    prop_call a' (KName k) = Some (Ok v) /\
    forall k', k' <> k -> prop_call a' (KName k') = prop_call a (KName k').
Proof.
  intros [Ha1 Ha2] Hk1 Hk2 H.
  pose proof (plain_one k v H) as Hpl. pose proof Hpl as [Hal Hnd].
  destruct (ordinary_one k v Hk1 Hk2) as [Ho1 Ho2].
  assert (Hafter : hasOwn (_internalMap (assign (VObj [(k, v)]) a))
                          "hasOwnProperty" = false).
  { rewrite (hasOwn_assign_plain _ a _ Hpl), Ho1, Ha1. reflexivity. }
  exists (assign (VObj [(k, v)]) a). split; [|split].
  - apply _change_call_ordinary; [exact Ha1|].
    rewrite (stores_plain _ Hal). exact Ho2.
  - rewrite (prop_call_ordinary _ _ Hafter).
    rewrite prop_lookup, (lookup_assign_plain _ _ k Hal Hnd). cbn [lookup].
    rewrite String.eqb_refl. reflexivity.
  - intros k' Hk.
    rewrite (prop_call_ordinary _ _ Hafter), (prop_call_ordinary _ _ Ha1).
    rewrite !prop_lookup, (lookup_assign_plain _ _ k' Hal Hnd). cbn [lookup].
    destruct (k =? k') eqn:E; [|reflexivity].
    apply String.eqb_eq in E. congruence.
Qed.

Lemma setProp_then_prop_witness :
  let a := constructor (VObj [("a", one)]) in
  ordinary (_internalMap a) /\
  "length" <> "hasOwnProperty" /\
  "length" <> "__proto__" /\
  ("length" <> "length" \/ isLength (VStr "long") = false) /\
  exists a',
    setProp_call "length" (VStr "long") a = Some (Ok a') /\
    prop_call a' (KName "length") = Some (Ok (VStr "long")) /\
    prop_call a' (KName "a") = Some (Ok one).
Proof.
  cbv zeta.
  assert (Ha : ordinary (_internalMap (constructor (VObj [("a", one)]))))
    by (split; reflexivity).
  assert (H1 : "length" <> "hasOwnProperty") by discriminate.
  assert (H2 : "length" <> "__proto__") by discriminate.
  assert (H : "length" <> "length" \/ isLength (VStr "long") = false)
    by (right; reflexivity).
  split; [exact Ha|]. split; [exact H1|]. split; [exact H2|]. split; [exact H|].
  destruct (setProp_then_prop "length" (VStr "long") _ Ha H1 H2 H)
    as (a' & Hs & Hp & Hother).
  exists a'. split; [exact Hs|]. split; [exact Hp|].
  rewrite (Hother "a"); [reflexivity | discriminate].
Defined.

(** ** deleteProp *)

Lemma lookup_delete_field k k' (o : fields) :
  lookup k (delete_field k' o) = if k' =? k then None else lookup k o.
Proof.
  induction o as [|[k0 v0] rest IH]; cbn [delete_field lookup].
  - destruct (k' =? k); reflexivity.
  - destruct (k0 =? k') eqn:E0.
    + rewrite IH. apply String.eqb_eq in E0. subst k0.
      destruct (k' =? k); reflexivity.
    + cbn [lookup]. rewrite IH.
      destruct (k0 =? k) eqn:E1; [|reflexivity].
      apply String.eqb_eq in E1. subst k0. rewrite String.eqb_sym, E0.
      reflexivity.
Qed.

Lemma own_keys_delete_field k (o : fields) :
  own_keys (delete_field k o) =
  filter (fun x => negb (x =? k)) (own_keys o).
Proof.
  induction o as [|[k0 v0] rest IH]; [reflexivity|].
  cbn [delete_field own_keys map filter fst].
  destruct (k0 =? k); cbn [negb]; [exact IH|].
  cbn [own_keys map fst]. f_equal. exact IH.
Qed.

Lemma filter_absent k (l : list string) :
  ~ In k l -> filter (fun x => negb (x =? k)) l = l.
Proof.
  induction l as [|x l IH]; intro H; [reflexivity|].
  cbn [filter]. destruct (x =? k) eqn:E.
  - apply String.eqb_eq in E. exfalso. apply H. left. exact E.
  - cbn [negb]. f_equal. apply IH. intro Hin. apply H. right. exact Hin.
Qed.

Lemma internalMap_deleteProp k a :
  _internalMap (deleteProp k a) = delete_field (key_name k) (_internalMap a).
Proof. unfold deleteProp. rewrite internalMap_change. reflexivity. Qed.

(** After [deleteProp(k)], on an atom whose map has no own
    [hasOwnProperty], the atom has no property [k]: [prop(k)] is
    [undefined] and [k] is not among [keys()]; every other property and
    the order of the keys are as they were.  A key that the atom does
    not have is deleted like any other, and the keys stay the same. *)
Theorem deleteProp_removes_the_key k a :
  hasOwn (_internalMap a) "hasOwnProperty" = false ->
  exists a',
    deleteProp_call (KName k) a = Some (Ok a') /\
    prop_call a' (KName k) = Some (Ok VUndefined) /\
    (forall k', k' <> k -> prop_call a' (KName k') = prop_call a (KName k')) /\
    keys a' = filter (fun x => negb (x =? k)) (keys a) /\
    (hasOwn (_internalMap a) k = false -> keys a' = keys a).
Proof.
  intro Ha.
  assert (Hkeys : keys (deleteProp (KName k) a) =
                  filter (fun x => negb (x =? k)) (keys a)).
  { unfold keys. rewrite internalMap_deleteProp. apply own_keys_delete_field. }
  assert (Hafter : hasOwn (_internalMap (deleteProp (KName k) a))
                          "hasOwnProperty" = false).
  { unfold hasOwn in *. rewrite internalMap_deleteProp, lookup_delete_field.
    destruct (key_name (KName k) =? "hasOwnProperty"); [reflexivity | exact Ha]. }
  exists (deleteProp (KName k) a). split; [|split; [|split; [|split]]].
  - apply _change_call_ordinary; [exact Ha | reflexivity].
  - rewrite (prop_call_ordinary _ _ Hafter).
    rewrite prop_lookup, internalMap_deleteProp, lookup_delete_field.
    cbn [key_name]. rewrite String.eqb_refl. reflexivity.
  - intros k' Hk.
    rewrite (prop_call_ordinary _ _ Hafter), (prop_call_ordinary _ _ Ha).
    rewrite !prop_lookup, internalMap_deleteProp, lookup_delete_field.
    cbn [key_name]. destruct (k =? k') eqn:E; [|reflexivity].
    apply String.eqb_eq in E. congruence.
  - exact Hkeys.
  - intro Hno. rewrite Hkeys. unfold keys, hasOwn in *.
    destruct (lookup k (_internalMap a)) eqn:E; [discriminate|].
    apply lookup_None_iff in E. apply filter_absent. exact E.
Qed.

Lemma deleteProp_removes_the_key_witness :
  let a := constructor (VObj [("a", one); ("b", two)]) in
  hasOwn (_internalMap a) "hasOwnProperty" = false /\
  exists a',
    deleteProp_call (KName "a") a = Some (Ok a') /\
    prop_call a' (KName "a") = Some (Ok VUndefined) /\
    keys a' = ["b"].
Proof.
  cbv zeta. split; [reflexivity|].
  destruct (deleteProp_removes_the_key "a"
              (constructor (VObj [("a", one); ("b", two)])) eq_refl)
    as (a' & H1 & H2 & _ & H3 & _).
  exists a'. split; [exact H1|]. split; [exact H2|].
  rewrite H3. reflexivity.
Defined.

(** ** An own property named hasOwnProperty *)

(** [setProp('hasOwnProperty', v)] with a [v] that is not a function
    runs to its end, and from then on the atom answers nothing: every
    [prop], every [setProp], every [deleteProp] (the one of
    ['hasOwnProperty'] too) and every [_change] that asks the map
    throws the TypeError of calling what is not a function. *)
Theorem own_hasOwnProperty_locks_the_atom v a :
  ordinary (_internalMap a) ->
  typeof v <> TFunction ->
  exists a',
    setProp_call "hasOwnProperty" v a = Some (Ok a') /\
    (forall k, prop_call a' k = Some (Throw not_a_function)) /\
    (forall k x, setProp_call k x a' = Some (Throw not_a_function)) /\
    (forall k, deleteProp_call k a' = Some (Throw not_a_function)) /\
    (forall o ks, asks_the_map o ks = true ->
                  _change_call o ks a' = Some (Throw not_a_function)).
Proof.
  intros [Ha1 Ha2] Hv.
  assert (Hpl : plain [("hasOwnProperty", v)]).
  { apply plain_one. left. discriminate. }
  pose proof Hpl as [Hal Hnd].
  assert (Hsh : shadowed (assign (VObj [("hasOwnProperty", v)]) a)).
  { exists v. split; [|exact Hv].
    rewrite (lookup_assign_plain _ a _ Hal Hnd). reflexivity. }
  exists (assign (VObj [("hasOwnProperty", v)]) a).
  split; [|split; [|split; [|split]]].
  - apply _change_call_ordinary; [exact Ha1|].
    rewrite (stores_plain _ Hal). reflexivity.
  - intro k. apply shadowed_prop. exact Hsh.
  - intros k x. apply shadowed_change; [exact Hsh|].
    unfold asks_the_map. cbn [own_entries].
    destruct (forEach (VObj [(k, x)])); reflexivity.
  - intro k. apply shadowed_change; [exact Hsh | reflexivity].
  - intros o ks Hasks. apply shadowed_change; assumption.
Qed.

Lemma own_hasOwnProperty_locks_the_atom_witness :
  let a := constructor (VObj [("a", one)]) in
  ordinary (_internalMap a) /\
  typeof two <> TFunction /\
  exists a',
    setProp_call "hasOwnProperty" two a = Some (Ok a') /\
    prop_call a' (KName "a") = Some (Throw not_a_function) /\
    deleteProp_call (KName "hasOwnProperty") a' = Some (Throw not_a_function).
Proof.
  cbv zeta.
  assert (Ha : ordinary (_internalMap (constructor (VObj [("a", one)]))))
    by (split; reflexivity).
  assert (Hv : typeof two <> TFunction) by discriminate.
  split; [exact Ha|]. split; [exact Hv|].
  destruct (own_hasOwnProperty_locks_the_atom two _ Ha Hv)
    as (a' & H1 & H2 & _ & H3 & _).
  exists a'. split; [exact H1|]. split; [apply H2 | apply H3].
Defined.

End DictAtomMore.

(* ================================================================== *)
(** * More facts about objects: own-key order *)
(* ================================================================== *)

Module OrderFacts.
Import JS WellFormed JSFacts SpreadFacts.
Local Open Scope list_scope.

(** The text of an array index is the decimal text of its number. *)
Lemma array_index_decimal s n : array_index s = Some n -> decimal n = s.
Proof.
  unfold array_index. destruct (NilZero.uint_of_string s) as [u|]; [|discriminate].
  cbv zeta.
  destruct (decimal (N.of_uint u) =? s) eqn:E; [|discriminate].
  destruct (N.of_uint u <? 4294967295)%N; [|discriminate].
  cbn [andb]. intro H. injection H as <-. apply String.eqb_eq. exact E.
Qed.

Lemma ForallOrdPairs_cons_inv {A} (R : A -> A -> Prop) a l :
  ForallOrdPairs R (a :: l) -> Forall (R a) l /\ ForallOrdPairs R l.
Proof. intro H. inversion H; subst. split; assumption. Qed.

Lemma ForallOrdPairs_snoc_intro {A} (R : A -> A -> Prop) l x :
  ForallOrdPairs R l -> Forall (fun y => R y x) l ->
  ForallOrdPairs R (l ++ [x]).
Proof.
  induction l as [|a l IH]; intros H1 H2; cbn.
  - constructor; constructor.
  - apply ForallOrdPairs_cons_inv in H1. destruct H1 as [H1 H1'].
    inversion H2; subst.
    constructor.
    + apply Forall_app. split; [exact H1|]. constructor; [assumption|constructor].
    + apply IH; assumption.
Qed.

(** An index key comes before whatever comes after a key it comes
    before. *)
Lemma index_before_trans k n k0 y :
  array_index k = Some n ->
  key_before k k0 -> key_before k0 y -> key_before k y.
Proof.
  unfold key_before. intro Hk. rewrite Hk.
  destruct (array_index k0) as [n0|], (array_index y) as [ny|];
    try tauto; try lia.
Qed.

Lemma own_key_order_insert_index n k v (o : fields) :
  array_index k = Some n ->
  ~ In k (own_keys o) ->
  own_key_order o ->
  own_key_order (insert_index n k v o).
Proof.
  unfold own_key_order. intros Hk.
  induction o as [|[k0 v0] rest IH]; intros Hnew Ho.
  - cbn. constructor; constructor.
  - apply ForallOrdPairs_cons_inv in Ho. destruct Ho as [Ho1 Ho2].
    assert (Hfront : key_before k k0 ->
                     ForallOrdPairs key_before (k :: k0 :: own_keys rest)).
    { intro Hb. constructor.
      - constructor; [exact Hb|].
        eapply Forall_impl; [|exact Ho1]. intros y Hy.
        exact (index_before_trans k n k0 y Hk Hb Hy).
      - constructor; assumption. }
    cbn [insert_index]. destruct (array_index k0) as [n0|] eqn:E0.
    + destruct (n <? n0)%N eqn:E.
      * apply Hfront. unfold key_before. rewrite Hk, E0.
        apply N.ltb_lt. exact E.
      * cbn [own_keys map fst]. constructor.
        -- apply Forall_forall. intros y Hy.
           change (In y (own_keys (insert_index n k v rest))) in Hy.
           apply In_keys_insert_index in Hy. destruct Hy as [->|Hy].
           ++ unfold key_before. rewrite E0, Hk.
              apply N.ltb_ge in E.
              assert (n <> n0).
              { intro Heq. subst n0. apply Hnew. left.
                rewrite <- (array_index_decimal _ _ E0).
                apply array_index_decimal. exact Hk. }
              lia.
           ++ rewrite Forall_forall in Ho1. apply Ho1. exact Hy.
        -- apply IH; [|exact Ho2]. intro H. apply Hnew. right. exact H.
    + apply Hfront. unfold key_before. rewrite Hk, E0. exact I.
Qed.

(** Writing a property keeps an object in own-key order. *)
Lemma own_key_order_set_field k v (o : fields) :
  own_key_order o -> own_key_order (set_field k v o).
Proof.
  intro Ho. unfold set_field, hasOwn.
  destruct (lookup k o) eqn:E.
  - unfold own_key_order. rewrite keys_replace. exact Ho.
  - apply lookup_None_iff in E.
    destruct (array_index k) as [n|] eqn:Ek.
    + apply own_key_order_insert_index; assumption.
    + unfold own_key_order, own_keys. rewrite map_app. cbn [map fst].
      apply ForallOrdPairs_snoc_intro; [exact Ho|].
      apply Forall_forall. intros y Hy. unfold key_before. rewrite Ek.
      destruct (array_index y); [exact I|]. intro Heq. subst y. exact (E Hy).
Qed.

Lemma own_key_order_spread_into (target : fields) source :
  own_key_order target -> own_key_order (spread_into target source).
Proof.
  unfold spread_into. generalize (own_entries source). intro es.
  revert target. induction es as [|[k v] es IH]; intros target H; [exact H|].
  cbn [fold_left]. apply IH. apply own_key_order_set_field. exact H.
Qed.

Lemma own_key_order_NoDup (o : fields) : own_key_order o -> NoDup (own_keys o).
Proof.
  unfold own_key_order. induction (own_keys o) as [|k l IH]; intro H.
  - constructor.
  - apply ForallOrdPairs_cons_inv in H. destruct H as [H1 H2].
    constructor; [|apply IH; exact H2].
    intro Hin. rewrite Forall_forall in H1.
    exact (key_before_irrefl k (H1 k Hin)).
Qed.

Lemma replace_same k v (o : fields) :
  lookup k o = Some v -> replace k v o = o.
Proof.
  induction o as [|[k0 v0] rest IH]; cbn [lookup replace]; intro H.
  - reflexivity.
  - destruct (k0 =? k); [injection H as ->; reflexivity|].
    f_equal. apply IH. exact H.
Qed.

(** Spreading into an object what it already holds changes nothing. *)
Lemma spread_into_same (target : fields) source :
  (forall k v, In (k, v) (own_entries source) -> lookup k target = Some v) ->
  spread_into target source = target.
Proof.
  unfold spread_into. generalize (own_entries source). intro es.
  induction es as [|[k v] es IH]; intro H; [reflexivity|].
  cbn [fold_left fst snd].
  assert (Hk : set_field k v target = target).
  { unfold set_field, hasOwn. rewrite (H k v (or_introl eq_refl)).
    apply replace_same. apply H. left. reflexivity. }
  rewrite Hk. apply IH. intros k' v' Hin. apply H. right. exact Hin.
Qed.

Lemma NoDup_lookup_In k v (o : fields) :
  NoDup (own_keys o) -> In (k, v) o -> lookup k o = Some v.
Proof.
  induction o as [|[k0 v0] rest IH]; intros Hnd Hin; [destruct Hin|].
  inversion Hnd as [|? ? H1 H2]; subst. cbn [lookup].
  destruct Hin as [Heq|Hin].
  - injection Heq as -> ->. rewrite String.eqb_refl. reflexivity.
  - destruct (k0 =? k) eqn:E; [|apply IH; assumption].
    apply String.eqb_eq in E. subst k0. exfalso. apply H1.
    change (In (fst (k, v)) (map fst rest)). apply in_map. exact Hin.
Qed.

End OrderFacts.

(* ================================================================== *)
(** * More facts about the wrapped root reducer *)
(* ================================================================== *)

Module WrapRootReducerMore.
Import JS Lodash WrapRootReducer WellFormed Scenario ReducerScenario.
Import JSFacts SpreadFacts OrderFacts WrapRootReducerFacts.
Local Open Scope list_scope.

(** An action that is not an object, or whose type is none of the four
    generic types, goes to the inner reducer as it is, with the state
    as it is: the wrapped reducer returns or throws what the inner
    reducer does. *)
Theorem foreign_actions_are_delegated call types reducer state action :
  is_nonnull_object action = false \/
  (has_type action (mergeStateAction_type types) = false /\
   has_type action (setStateAction_type types) = false /\
   has_type action (resetStateAction_type types) = false /\
   has_type action (multiReduceStateAction_type types) = false) ->
  wrapRootReducer call types reducer state action = reducer state action.
Proof.
  intros [H|(H1 & H2 & H3 & H4)]; unfold wrapRootReducer.
  - assert (Hg : type_tag_eqb (typeof action) TObject && negb (is_null action)
                 = false).
    { rewrite andb_comm. exact H. }
    rewrite Hg. reflexivity.
  - rewrite H1, H2, H3, H4.
    destruct (type_tag_eqb (typeof action) TObject && negb (is_null action));
      reflexivity.
Qed.

Lemma foreign_actions_are_delegated_witness :
  (is_nonnull_object (VStr "@@INIT") = false \/
   (has_type (VStr "@@INIT") (mergeStateAction_type types) = false /\
    has_type (VStr "@@INIT") (setStateAction_type types) = false /\
    has_type (VStr "@@INIT") (resetStateAction_type types) = false /\
    has_type (VStr "@@INIT") (multiReduceStateAction_type types) = false)) /\
  wrapRootReducer arith types inner VUndefined (VStr "@@INIT") =
    Ok (VObj [("x", one); ("y", two)]).
Proof.
  assert (H : is_nonnull_object (VStr "@@INIT") = false \/
   (has_type (VStr "@@INIT") (mergeStateAction_type types) = false /\
    has_type (VStr "@@INIT") (setStateAction_type types) = false /\
    has_type (VStr "@@INIT") (resetStateAction_type types) = false /\
    has_type (VStr "@@INIT") (multiReduceStateAction_type types) = false))
    by (left; reflexivity).
  split; [exact H|].
  rewrite (foreign_actions_are_delegated arith types inner VUndefined
             (VStr "@@INIT") H).
  reflexivity.
Defined.

(** [setStateAction(payload)] makes the payload the state, whatever the
    state was (also one that merge and reset refuse), whatever the
    payload is, and without calling the inner reducer. *)
Theorem setState_replaces_any_state call types reducer state payload :
  distinct types ->
  wrapRootReducer call types reducer state (setStateAction types payload) =
  Ok payload.
Proof.
  intros (H1 & _). unfold wrapRootReducer, setStateAction.
  rewrite !has_type_action_of, String.eqb_refl.
  assert (E : (setStateAction_type types =? mergeStateAction_type types) = false)
    by (apply String.eqb_neq; congruence).
  rewrite E. reflexivity.
Qed.

Lemma setState_replaces_any_state_witness :
  distinct types /\
  wrapRootReducer arith types (fun _ _ => Throw (TypeError "inner"))
                  (VNum (Fin 5)) (setStateAction types VUndefined) =
  Ok VUndefined.
Proof.
  split; [exact types_distinct|].
  apply (setState_replaces_any_state arith types _ (VNum (Fin 5)) VUndefined
           types_distinct).
Defined.

Lemma spread_empty_well_formed (o : fields) :
  own_key_order o -> spread_into [] (VObj o) = o.
Proof. intro H. unfold spread_into. cbn [own_entries]. apply rebuild. exact H. Qed.

(** [mergeStateAction(payload)] against an object state: the result is
    an object in own-key order that has every own property of the
    payload, with the payload's value, and every other own property of
    the state, with the state's value. *)
Theorem merge_overlays_the_payload call types reducer state payload :
  is_nonnull_object state = true ->
  is_nonnull_object payload = true ->
  NoDup (Object_keys state) ->
  NoDup (Object_keys payload) ->
  exists result,
    wrapRootReducer call types reducer state (mergeStateAction types payload)
      = Ok (VObj result) /\
    own_key_order result /\
    forall k,
      lookup k result =
      match lookup k (own_entries payload) with
      | Some v => Some v
      | None => lookup k (own_entries state)
      end.
Proof.
  intros Hs Hp Hnds Hndp. rewrite merge_spec, Hs, Hp. cbn [negb].
  eexists. split; [reflexivity|]. split.
  - apply own_key_order_spread_into. apply own_key_order_spread_into.
    constructor.
  - intro k. rewrite (lookup_spread_into k _ payload Hndp).
    destruct (lookup k (own_entries payload)); [reflexivity|].
    rewrite (lookup_spread_into k [] state Hnds).
    destruct (lookup k (own_entries state)); reflexivity.
Qed.

Lemma merge_overlays_the_payload_witness :
  exists result,
    wrapRootReducer arith types inner (VObj [("x", one); ("y", two)])
                    (mergeStateAction types (VObj [("y", three); ("1", one)]))
      = Ok (VObj result) /\
    lookup "x" result = Some one /\
    lookup "y" result = Some three.
Proof.
  assert (H1 : NoDup (Object_keys (VObj [("x", one); ("y", two)]))).
  { cbn. repeat constructor; cbn; intuition discriminate. }
  assert (H2 : NoDup (Object_keys (VObj [("y", three); ("1", one)]))).
  { cbn. repeat constructor; cbn; intuition discriminate. }
  destruct (merge_overlays_the_payload arith types inner
              (VObj [("x", one); ("y", two)])
              (VObj [("y", three); ("1", one)]) eq_refl eq_refl H1 H2)
    as (result & Hr & _ & Hl).
  exists result. split; [exact Hr|].
  split; rewrite Hl; reflexivity.
Defined.

(** Merging is idempotent: a payload merged into the result of merging
    it gives that result again; and so does the empty object merged
    into that result. *)
Theorem merge_twice_is_merge_once call types reducer state payload merged :
  NoDup (Object_keys payload) ->
  wrapRootReducer call types reducer state (mergeStateAction types payload)
    = Ok merged ->
  wrapRootReducer call types reducer merged (mergeStateAction types payload)
    = Ok merged /\
  wrapRootReducer call types reducer merged (mergeStateAction types (VObj []))
    = Ok merged.
Proof.
  intros Hnd. rewrite !merge_spec.
  destruct (is_nonnull_object payload) eqn:Hp; cbn [negb]; [|discriminate].
  destruct (is_nonnull_object state) eqn:Hs; cbn [negb]; [|discriminate].
  intro H. injection H as <-. unfold object_spread2.
  set (f1 := spread_into (spread_into [] state) payload).
  change (is_nonnull_object (VObj f1)) with true.
  change (is_nonnull_object (VObj [])) with true. cbn [negb].
  assert (Hwf : own_key_order f1).
  { apply own_key_order_spread_into. apply own_key_order_spread_into.
    constructor. }
  rewrite (spread_empty_well_formed f1 Hwf).
  split; f_equal; f_equal.
  apply spread_into_same. intros k v Hin. unfold f1.
  rewrite (lookup_spread_into k _ payload Hnd).
  rewrite (NoDup_lookup_In k v (own_entries payload) Hnd Hin). reflexivity.
Qed.

Lemma merge_twice_is_merge_once_witness :
  NoDup (Object_keys (VObj [("z", three)])) /\
  wrapRootReducer arith types inner (VObj [("x", one)])
                  (mergeStateAction types (VObj [("z", three)])) =
    Ok (VObj [("x", one); ("z", three)]) /\
  wrapRootReducer arith types inner (VObj [("x", one); ("z", three)])
                  (mergeStateAction types (VObj [("z", three)])) =
    Ok (VObj [("x", one); ("z", three)]).
Proof.
  assert (H : NoDup (Object_keys (VObj [("z", three)]))).
  { cbn. repeat constructor. intros []. }
  split; [exact H|]. split; [reflexivity|].
  destruct (merge_twice_is_merge_once arith types inner (VObj [("x", one)])
              (VObj [("z", three)]) _ H eq_refl) as [H1 _].
  exact H1.
Defined.

End WrapRootReducerMore.

(* ================================================================== *)
(** * More facts about the state persistor *)
(* ================================================================== *)

Module StatePersistorMore.
Import JS Lodash StatePersistor PersistorRoot Scenario PersistorScenario.
Import WatcherScenario.
Local Open Scope list_scope.

(** ** The file system *)

Lemma file_content_write p c fs : file_content p (file_write p c fs) = Some c.
Proof.
  induction fs as [|[p0 c0] fs IH]; cbn [file_write file_content].
  - rewrite String.eqb_refl. reflexivity.
  - destruct (p0 =? p) eqn:E; cbn [file_content]; rewrite E;
      [reflexivity | exact IH].
Qed.

Lemma file_content_write_other p q c fs :
  q <> p -> file_content q (file_write p c fs) = file_content q fs.
Proof.
  intro H. induction fs as [|[p0 c0] fs IH]; cbn [file_write file_content].
  - destruct (p =? q) eqn:E; [|reflexivity].
    apply String.eqb_eq in E. congruence.
  - destruct (p0 =? p) eqn:E; cbn [file_content].
    + apply String.eqb_eq in E. subst p0.
      destruct (p =? q) eqn:E'; [|reflexivity].
      apply String.eqb_eq in E'. congruence.
    + rewrite IH. reflexivity.
Qed.

Section Persist.

Variable pathToPersistenceFile : string.
Variable JSON_parse : string -> result value.
Variable JSON_stringify : value -> string.
Variable deepEqual : value -> value -> bool.
Variable bootstrapAction : value.
Variable setStateAction : value -> value.
Variable spreadPaths : value -> value -> value -> value.
Variable rootReducer : value -> value -> value.

Let persist (s : value) (w : world) :=
  run rootReducer (persistNewState pathToPersistenceFile JSON_stringify s) w.

Let load (w : world) :=
  run rootReducer
      (_loadState pathToPersistenceFile JSON_parse bootstrapAction
                  setStateAction spreadPaths) w.

Lemma persist_world s w :
  persist s w =
  (Ok VUndefined,
   mkWorld (file_write pathToPersistenceFile (JSON_stringify s)
              (match file_content pathToPersistenceFile (files w) with
               | Some _ => files w
               | None => file_write pathToPersistenceFile EmptyString (files w)
               end))
           (store w) (dispatched w) (console w) (lastState w)
           (writes w ++ [(pathToPersistenceFile, JSON_stringify s)])).
Proof.
  unfold persist, persistNewState. cbn [run perform].
  destruct (file_content pathToPersistenceFile (files w)); reflexivity.
Qed.

(** [persistNewState(s)] leaves the persistence file with the text of
    [s] and nothing else, whether the file was there or not and
    whatever it held; it makes one write, returns normally, and leaves
    every other file, the store and [lastState] as they were. *)
Theorem persistNewState_replaces_the_file s w :
  fst (persist s w) = Ok VUndefined /\
  file_content pathToPersistenceFile (files (snd (persist s w))) =
    Some (JSON_stringify s) /\
  (forall q, q <> pathToPersistenceFile ->
     file_content q (files (snd (persist s w))) = file_content q (files w)) /\
  writes (snd (persist s w)) =
    writes w ++ [(pathToPersistenceFile, JSON_stringify s)] /\
  store (snd (persist s w)) = store w /\
  lastState (snd (persist s w)) = lastState w.
Proof.
  rewrite persist_world. cbn [fst snd files writes store lastState].
  split; [reflexivity|]. split; [apply file_content_write|].
  split; [|repeat split; reflexivity].
  intros q Hq. rewrite (file_content_write_other _ _ _ _ Hq).
  destruct (file_content pathToPersistenceFile (files w)); [reflexivity|].
  apply file_content_write_other. exact Hq.
Qed.

(** What was persisted is what is loaded: where [JSON.parse] reads back
    what [JSON.stringify] wrote of [s], loading after
    [persistNewState(s)] puts the [setStateAction] of the state with
    the whitelisted paths spread from [s], then the bootstrap action,
    and logs nothing. *)
Theorem load_after_persist s w :
  JSON_parse (JSON_stringify s) = Ok s ->
  let w1 := snd (persist s w) in
  fst (load w1) = Ok bootstrapAction /\
  dispatched (snd (load w1)) =
    dispatched w ++
    [setStateAction (spreadPaths whitelistOfPartsOfStateToPersist s (store w));
     bootstrapAction] /\
  console (snd (load w1)) = console w.
Proof.
  intro Hparse. cbv zeta. rewrite persist_world. cbn [snd].
  unfold load, _loadState. cbn [run perform files].
  rewrite file_content_write. cbn [truthy negb run perform files].
  rewrite file_content_write. cbn [to_string]. rewrite Hparse.
  cbn. rewrite <- app_assoc. repeat split; reflexivity.
Qed.

End Persist.

Lemma load_after_persist_witness :
  let s := VObj [("projects", VObj [("listOfPaths", VArr [VStr "/a"])])] in
  let stringify := fun _ : value => persisted in
  parse (stringify s) = Ok s /\
  dispatched
    (snd (run root (_loadState path parse bootstrap setState spreadPaths)
              (snd (run root (persistNewState path stringify s)
                        (world_with []))))) =
  [setState (state_with ["/a"]); bootstrap].
Proof.
  cbv zeta. split; [reflexivity|].
  destruct (load_after_persist path parse (fun _ => persisted) bootstrap
              setState spreadPaths root
              (VObj [("projects", VObj [("listOfPaths", VArr [VStr "/a"])])])
              (world_with []) eq_refl) as (_ & H & _).
  rewrite H. reflexivity.
Defined.

(** ** The watcher *)

Section Watcher.

Variable pathToPersistenceFile : string.
Variable JSON_parse : string -> result value.
Variable JSON_stringify : value -> string.
Variable deepEqual : value -> value -> bool.
Variable bootstrapAction : value.
Variable setStateAction : value -> value.
Variable spreadPaths : value -> value -> value -> value.
Variable rootReducer : value -> value -> value.

Let events := on_events pathToPersistenceFile JSON_stringify deepEqual rootReducer.
Let handler := onAction pathToPersistenceFile JSON_stringify deepEqual.
Let quiet := only_persists pathToPersistenceFile.
Let tame_task := WatcherScenario.tame_task pathToPersistenceFile.

Lemma quiet_refl w : quiet w w.
Proof.
  repeat split; try reflexivity.
  exists []. split; [symmetry; apply app_nil_r | constructor].
Qed.

Lemma quiet_trans w1 w2 w3 : quiet w1 w2 -> quiet w2 w3 -> quiet w1 w3.
Proof.
  intros (A1 & A2 & (ws & A3 & A4) & A5) (B1 & B2 & (ws' & B3 & B4) & B5).
  split; [congruence|]. split; [congruence|]. split.
  - exists (ws ++ ws'). split.
    + rewrite B3, A3, app_assoc. reflexivity.
    + apply Forall_app. split; assumption.
  - intros q Hq. rewrite (B5 q Hq). apply A5. exact Hq.
Qed.

Lemma perform_allowed e w :
  allowed pathToPersistenceFile e ->
  quiet w (snd (perform rootReducer e w)) /\
  exists x, fst (perform rootReducer e w) = Ok x.
Proof.
  destruct e as [p|p|p|p c| |a|ms]; cbn [allowed]; intro H;
    try contradiction; try subst p; cbn [perform].
  - destruct (file_content pathToPersistenceFile (files w)) eqn:E;
      cbn [fst snd]; (split; [|eexists; reflexivity]).
    + apply quiet_refl.
    + repeat split; try reflexivity.
      * exists []. split; [symmetry; apply app_nil_r | constructor].
      * intros q Hq. cbn [files]. apply file_content_write_other. exact Hq.
  - cbn [fst snd]. split; [|eexists; reflexivity].
    repeat split; try reflexivity.
    + eexists. split; [reflexivity|]. constructor; [reflexivity|constructor].
    + intros q Hq. cbn [files]. apply file_content_write_other. exact Hq.
  - split; [apply quiet_refl | eexists; reflexivity].
  - split; [apply quiet_refl | eexists; reflexivity].
Qed.

Lemma perform_sync_quiet o w :
  (forall msg, o <> Console_error msg) ->
  quiet w (snd (perform_sync o w)).
Proof.
  destruct o as [msg| |v]; intro H.
  - exfalso. exact (H msg eq_refl).
  - apply quiet_refl.
  - cbn. repeat split; try reflexivity.
    exists []. split; [symmetry; apply app_nil_r | constructor].
Qed.

Lemma advance_tame s :
  tame pathToPersistenceFile s ->
  forall w, quiet w (snd (advance rootReducer s w)) /\
            tame_task (fst (advance rootReducer s w)).
Proof.
  induction 1 as [v | e k He Hk IH | o k Ho Hk IH]; intro w; cbn [advance].
  - split; [apply quiet_refl | exact I].
  - destruct (perform_allowed e w He) as [Hq (x & Hx)].
    destruct (perform rootReducer e w) as [r w1]. cbn [fst snd] in *.
    subst r. destruct (asynchronous e).
    + cbn [fst snd]. split; [exact Hq|]. intro y. apply Hk.
    + destruct (IH x w1) as [H1 H2]. split; [|exact H2].
      exact (quiet_trans _ _ _ Hq H1).
  - pose proof (perform_sync_quiet o w Ho) as Hq.
    destruct (perform_sync o w) as [x w1]. cbn [snd] in Hq.
    destruct (IH x w1) as [H1 H2]. split; [|exact H2].
    exact (quiet_trans _ _ _ Hq H1).
Qed.

Lemma handler_tame : tame pathToPersistenceFile handler.
Proof.
  unfold handler, onAction.
  apply tame_Yield; [exact I|]. intros _.
  apply tame_Yield; [exact I|]. intro state.
  apply tame_Step; [discriminate|]. intro last.
  destruct (negb (deepEqual last (pickPathsFromObject state)));
    [|apply tame_Return].
  cbn [seq_saga persistNewState].
  apply tame_Yield; [reflexivity|]. intros _.
  apply tame_Yield; [reflexivity|]. intros _.
  apply tame_Step; [discriminate|]. intros _. apply tame_Return.
Qed.

Lemma on_event_tame t w ev :
  tame_task t ->
  quiet w (snd (on_event pathToPersistenceFile JSON_stringify deepEqual
                         rootReducer (t, w) ev)) /\
  tame_task (fst (on_event pathToPersistenceFile JSON_stringify deepEqual
                           rootReducer (t, w) ev)).
Proof.
  intro Ht. destruct ev as [a|]; cbn [on_event].
  - destruct (advance_tame _ handler_tame
                (mkWorld (files w) (rootReducer (store w) a) (dispatched w)
                         (console w) (lastState w) (writes w))) as [H1 H2].
    split; [|exact H2].
    refine (quiet_trans _ _ _ _ H1).
    repeat split; try reflexivity.
    exists []. split; [symmetry; apply app_nil_r | constructor].
  - destruct t as [k|]; [|split; [apply quiet_refl | exact I]].
    apply advance_tame. apply Ht.
Qed.

(** Whatever actions are dispatched and whenever the delays and the
    calls of its tasks end, the watcher puts no action, logs nothing,
    writes to the persistence file only and leaves every other file as
    it is. *)
Theorem watcher_only_persists w evs :
  let w' := snd (events (None, w) evs) in
  dispatched w' = dispatched w /\
  console w' = console w /\
  (exists ws, writes w' = writes w ++ ws /\
              Forall (fun wr => fst wr = pathToPersistenceFile) ws) /\
  (forall q, q <> pathToPersistenceFile ->
             file_content q (files w') = file_content q (files w)).
Proof.
  cbv zeta.
  assert (H : forall evs t w0,
             tame_task t -> quiet w0 (snd (events (t, w0) evs))).
  { clear w evs. induction evs as [|ev evs IH]; intros t w0 Ht.
    - apply quiet_refl.
    - unfold events, on_events. cbn [fold_left].
      destruct (on_event_tame t w0 ev Ht) as [H1 H2].
      destruct (on_event _ _ _ _ (t, w0) ev) as [t1 w1]. cbn [fst snd] in *.
      exact (quiet_trans _ _ _ H1 (IH t1 w1 H2)). }
  exact (H evs None w I).
Qed.

(** An action that arrives while the write of the task before is under
    way cancels that task before it sets [lastState]: when the new
    action leaves the whitelisted part of the state as it is, its task
    writes the same text once more. *)
Theorem action_during_the_write_repeats_it w a1 a2 :
  let s1 := rootReducer (store w) a1 in
  let p := pickPathsFromObject s1 in
  deepEqual (lastState w) p = false ->
  pickPathsFromObject (rootReducer s1 a2) = p ->
  let after :=
    events (None, w)
           [Dispatched a1; Completed; Completed;
            Dispatched a2; Completed; Completed; Completed] in
  writes (snd after) =
    writes w ++ [(pathToPersistenceFile, JSON_stringify p);
                 (pathToPersistenceFile, JSON_stringify p)] /\
  lastState (snd after) = p /\
  fst after = None.
Proof.
  cbv zeta. intros Hne Hsame.
  unfold events, on_events, onAction.
  cbn [fold_left on_event advance perform perform_sync asynchronous
       onAction store lastState].
  rewrite Hne.
  cbn [negb seq_saga persistNewState advance perform asynchronous files].
  destruct (file_content pathToPersistenceFile (files w)) eqn:E;
    cbn [advance perform asynchronous perform_sync store lastState files
         writes dispatched console on_event];
    unfold onAction;
    cbn [advance perform asynchronous perform_sync store lastState files
         writes dispatched console on_event];
    rewrite Hsame, Hne;
    cbn [negb seq_saga persistNewState advance perform asynchronous files];
    rewrite file_content_write;
    cbn; rewrite <- app_assoc; repeat split; reflexivity.
Qed.

Let boot :=
  statePersistorRootSaga pathToPersistenceFile JSON_parse bootstrapAction
                         setStateAction spreadPaths rootReducer.

Lemma load_keeps_files w :
  let w1 := snd (run rootReducer
                     (_loadState pathToPersistenceFile JSON_parse
                                 bootstrapAction setStateAction spreadPaths) w) in
  files w1 = files w /\ writes w1 = writes w.
Proof.
  cbv zeta. unfold _loadState. cbn [run perform].
  destruct (file_content pathToPersistenceFile (files w)) eqn:E;
    cbn [truthy negb run perform]; [|split; reflexivity].
  rewrite E. cbn [to_string]. destruct (JSON_parse s); cbn; split; reflexivity.
Qed.

(** When the root saga has started the watcher, no task runs, nothing
    has been written and the persistence file is as it was, and
    [lastState] is the whitelisted part of the state that loading left
    in the store.  So where [deepEqual] holds of that part and itself,
    an action that leaves that part as it is is followed by no write:
    what was loaded is not written back. *)
Theorem loaded_state_is_not_written_back w wt a :
  boot w = Ok wt ->
  fst wt = None /\
  writes (snd wt) = writes w /\
  files (snd wt) = files w /\
  lastState (snd wt) = pickPathsFromObject (store (snd wt)) /\
  (deepEqual (pickPathsFromObject (store (snd wt)))
             (pickPathsFromObject (store (snd wt))) = true ->
   pickPathsFromObject (rootReducer (store (snd wt)) a) =
     pickPathsFromObject (store (snd wt)) ->
   let after := events wt [Dispatched a; Completed; Completed; Completed] in
   writes (snd after) = writes w /\
   files (snd after) = files w /\
   fst after = None).
Proof.
  unfold boot, statePersistorRootSaga.
  pose proof (load_keeps_files w) as Hload. cbv zeta in Hload.
  destruct (run rootReducer _ w) as [[v|e] w1]; [|discriminate].
  cbn [snd] in Hload. destruct Hload as [Hf Hw].
  unfold persistStateChanges_init. cbn [run perform perform_sync].
  intro H. injection H as <-. cbn [fst snd writes files lastState store].
  split; [reflexivity|]. split; [exact Hw|]. split; [exact Hf|].
  split; [reflexivity|].
  intros Hrefl Hsame. cbv zeta.
  unfold events, on_events.
  cbn [fold_left on_event store lastState files writes dispatched console].
  unfold onAction.
  cbn [advance perform perform_sync asynchronous on_event store lastState
       files writes dispatched console].
  rewrite Hsame, Hrefl. cbn. repeat split; assumption.
Qed.

End Watcher.

Lemma action_during_the_write_repeats_it_witness :
  let w := mkWorld [] (state_with []) [] []
                   (pickPathsFromObject (state_with [])) [] in
  value_eqb (lastState w)
            (pickPathsFromObject (root (store w) (setState (state_with ["/a"]))))
    = false /\
  writes
    (snd (on_events path show value_eqb root (None, w)
            [Dispatched (setState (state_with ["/a"])); Completed; Completed;
             Dispatched bootstrap; Completed; Completed; Completed])) =
  [(path, "/a"); (path, "/a")].
Proof.
  cbv zeta. split; [reflexivity|].
  destruct (action_during_the_write_repeats_it path show value_eqb root
              (mkWorld [] (state_with []) [] []
                       (pickPathsFromObject (state_with [])) [])
              (setState (state_with ["/a"])) bootstrap eq_refl eq_refl)
    as (H & _).
  rewrite H. reflexivity.
Defined.

Lemma loaded_state_is_not_written_back_witness :
  exists wt,
    statePersistorRootSaga path parse bootstrap setState spreadPaths root
                           (world_with [(path, persisted)]) = Ok wt /\
    store (snd wt) = state_with ["/a"] /\
    writes
      (snd (on_events path show value_eqb root wt
              [Dispatched bootstrap; Completed; Completed; Completed])) = [].
Proof.
  eexists. split; [reflexivity|]. split; [reflexivity|].
  match goal with
  | |- writes (snd (on_events _ _ _ _ ?wt _)) = _ =>
      destruct (loaded_state_is_not_written_back path parse show value_eqb
                  bootstrap setState spreadPaths root
                  (world_with [(path, persisted)]) wt bootstrap eq_refl)
        as (_ & _ & _ & _ & H)
  end.
  destruct (H eq_refl eq_refl) as (Hw & _).
  exact Hw.
Defined.

End StatePersistorMore.

(* ================================================================== *)
(** * More facts about the prop types *)
(* ================================================================== *)

Module PropTypesMore.
Import JS PropTypes Scenario ReducerScenario LabelScenario.
Import JSFacts SpreadFacts.
Local Open Scope list_scope.

(** ** trim *)

Lemma length_rev_string acc s :
  String.length (rev_string acc s) = String.length s + String.length acc.
Proof.
  revert acc. induction s as [|c s IH]; intro acc; cbn [rev_string String.length].
  - reflexivity.
  - rewrite IH. cbn [String.length]. lia.
Qed.

Lemma starts_rev_string acc s :
  starts_with_space (rev_string acc s) =
  match s with
  | EmptyString => starts_with_space acc
  | _ => ends_with_space s
  end.
Proof.
  revert acc. induction s as [|c s IH]; intro acc; [reflexivity|].
  cbn [rev_string]. rewrite IH. destruct s; reflexivity.
Qed.

Lemma trim_start_keeps s : starts_with_space s = false -> trim_start s = s.
Proof. destruct s as [|c s]; cbn; [reflexivity|]. intros ->. reflexivity. Qed.

Lemma trim_start_le s : String.length (trim_start s) <= String.length s.
Proof.
  induction s as [|c s IH]; cbn [trim_start]; [lia|].
  destruct (is_space c); cbn [String.length] in *; lia.
Qed.

Lemma trim_start_lt s :
  starts_with_space s = true -> String.length (trim_start s) < String.length s.
Proof.
  destruct s as [|c s]; cbn [starts_with_space trim_start]; [discriminate|].
  intros ->. pose proof (trim_start_le s). cbn [String.length]. lia.
Qed.

(** [label.trim().length !== label.length] says that the label starts
    or ends with white space. *)
Lemma trim_changes_length l :
  (String.length (trim l) =? String.length l)%nat =
  negb (starts_with_space l || ends_with_space l).
Proof.
  unfold trim. rewrite length_rev_string. cbn [String.length].
  rewrite Nat.add_0_r.
  destruct (starts_with_space l) eqn:E; cbn [orb negb].
  - apply Nat.eqb_neq.
    pose proof (trim_start_lt l E).
    pose proof (trim_start_le (rev_string EmptyString (trim_start l))).
    rewrite length_rev_string in H0. cbn [String.length] in H0. lia.
  - rewrite (trim_start_keeps l E).
    assert (Hs : starts_with_space (rev_string EmptyString l) = ends_with_space l).
    { rewrite starts_rev_string. destruct l; reflexivity. }
    rewrite <- Hs.
    destruct (starts_with_space (rev_string EmptyString l)) eqn:E2; cbn [negb].
    + apply Nat.eqb_neq.
      pose proof (trim_start_lt _ E2) as H. rewrite length_rev_string in H.
      cbn [String.length] in H. lia.
    + rewrite (trim_start_keeps _ E2), length_rev_string.
      cbn [String.length]. rewrite Nat.add_0_r. apply Nat.eqb_refl.
Qed.

(** In a development build [validateCommonOpts] accepts [opts] exactly
    when it is [undefined], or an object that has no own [label] or
    whose [label] is a string that is not empty and neither starts nor
    ends with white space; it throws for everything else.  In a
    production build it accepts everything. *)
Theorem validateCommonOpts_accepts signature opts :
  (validateCommonOpts development signature opts = Ok tt <->
   opts = VUndefined \/
   (is_nonnull_object opts = true /\
    (hasOwnProperty opts "label" = false \/ good_label (get_prop opts "label"))))
  /\ validateCommonOpts production signature opts = Ok tt.
Proof.
  split; [|reflexivity].
  unfold validateCommonOpts. cbn [checked].
  destruct (is_undefined opts) eqn:Eu.
  { destruct opts; try discriminate Eu. split; [left; reflexivity | reflexivity]. }
  assert (Hnu : opts <> VUndefined) by (intros ->; discriminate Eu).
  assert (Hobj : negb (type_tag_eqb (typeof opts) TObject) || is_null opts
                 = negb (is_nonnull_object opts)).
  { destruct opts; reflexivity. }
  rewrite Hobj.
  destruct (is_nonnull_object opts) eqn:Eo; cbn [negb].
  2:{ split; [discriminate|]. intros [H|[H _]]; [contradiction | discriminate]. }
  destruct (hasOwnProperty opts "label") eqn:El.
  2:{ split; [|reflexivity]. intros _. right. split; [reflexivity|].
      left. reflexivity. }
  unfold good_label.
  destruct (get_prop opts "label") as [| | | |l| | |] eqn:Eg;
    try (split; [discriminate|];
         intros [H|[_ [H|(l & H & _)]]];
         [contradiction | discriminate | discriminate]).
  rewrite trim_changes_length, negb_involutive.
  destruct (starts_with_space l || ends_with_space l) eqn:Es.
  - split; [discriminate|].
    intros [H|[_ [H|(l' & H & _ & H1 & H2)]]];
      [contradiction | discriminate |].
    injection H as <-. rewrite H1, H2 in Es. discriminate Es.
  - apply orb_false_elim in Es. destruct Es as [Es1 Es2].
    destruct (String.length l =? 0)%nat eqn:E0.
    + split; [discriminate|].
      intros [H|[_ [H|(l' & H & Hne & _)]]];
        [contradiction | discriminate |].
      injection H as <-. apply Nat.eqb_eq in E0.
      destruct l; [contradiction | discriminate E0].
    + split; [|reflexivity]. intros _. right. split; [reflexivity|].
      right. exists l. split; [reflexivity|]. split; [|split; assumption].
      intros ->. discriminate E0.
Qed.

Lemma validateCommonOpts_accepts_witness :
  validateCommonOpts development "t.number(defaultValue, opts)"
                     (VObj [("label", VStr "Position X")]) = Ok tt /\
  (exists e, validateCommonOpts development "t.number(defaultValue, opts)"
                                (VObj [("label", VStr "X ")]) = Throw e).
Proof.
  split.
  - destruct (validateCommonOpts_accepts "t.number(defaultValue, opts)"
                (VObj [("label", VStr "Position X")])) as [[_ H] _].
    apply H. right. split; [reflexivity|]. right.
    exists "Position X". repeat split. discriminate.
  - eexists. reflexivity.
Defined.

(** ** Defaults and ranges *)

Lemma validateCommonOpts_object opts :
  hasOwnProperty opts "range" = true ->
  forall signature,
    validateCommonOpts development signature opts = Ok tt ->
    is_nonnull_object opts = true.
Proof.
  intros Hr signature H. unfold validateCommonOpts in H. cbn [checked] in H.
  destruct opts; try discriminate Hr; try discriminate H; reflexivity.
Qed.

Lemma number_validated call d opts cfg :
  number call development d opts = Ok cfg ->
  validate_number development d opts = Ok tt.
Proof.
  unfold number. destruct (validate_number development d opts) as [[]|e];
    [reflexivity | discriminate].
Qed.

Lemma validate_number_default d opts :
  validate_number development d opts = Ok tt -> exists z, d = VNum (Fin z).
Proof.
  unfold validate_number. cbn [checked].
  destruct (validateCommonOpts development _ opts) as [[]|e]; [|discriminate].
  cbn [bind].
  destruct d as [| | |n| | | |]; try discriminate.
  destruct n; try discriminate. intros _. eexists. reflexivity.
Qed.

(** In a development build the default value that a config was made
    with passes the [sanitize] of the config unchanged: for [number]
    and [string] when no [opts.sanitize] is given, for [boolean]
    always. *)
Theorem default_passes_its_own_sanitize call d opts :
  (forall cfg, number call development d opts = Ok cfg ->
               truthy (opt_get opts "sanitize") = false ->
               number_sanitize cfg d = Ok d) /\
  (forall cfg, boolean development d opts = Ok cfg -> sanitize cfg d = Ok d) /\
  (forall cfg, string_ call development d opts = Ok cfg ->
               truthy (opt_get opts "sanitize") = false ->
               sanitize cfg d = Ok d).
Proof.
  split; [|split].
  - intros cfg H Hs.
    destruct (validate_number_default d opts (number_validated _ _ _ _ H))
      as [z ->].
    unfold number in H.
    destruct (validate_number development _ opts); [|discriminate].
    cbn [bind] in H. injection H as <-. cbn [number_sanitize].
    rewrite Hs. reflexivity.
  - intros cfg H. unfold boolean in H. cbn [checked] in H.
    destruct (validateCommonOpts development _ opts) as [[]|e];
      [|discriminate].
    cbn [bind] in H. destruct d; try discriminate H.
    injection H as <-. reflexivity.
  - intros cfg H Hs. unfold string_ in H. cbn [checked] in H.
    destruct (validateCommonOpts development _ opts) as [[]|e];
      [|discriminate].
    cbn [bind] in H. destruct d; try discriminate H.
    injection H as <-. cbn [sanitize]. rewrite Hs. reflexivity.
Qed.

Lemma default_passes_its_own_sanitize_witness :
  (exists cfg, number arith development (VNum (Fin 7))
                      (VObj [("label", VStr "x")]) = Ok cfg /\
               number_sanitize cfg (VNum (Fin 7)) = Ok (VNum (Fin 7))) /\
  (exists cfg, boolean development (VBool true) VUndefined = Ok cfg /\
               sanitize cfg (VBool true) = Ok (VBool true)) /\
  (exists cfg, string_ arith development (VStr "hello") VUndefined = Ok cfg /\
               sanitize cfg (VStr "hello") = Ok (VStr "hello")).
Proof.
  split; [|split]; eexists; (split; [reflexivity|]).
  - destruct (default_passes_its_own_sanitize arith (VNum (Fin 7))
                (VObj [("label", VStr "x")])) as (H & _ & _).
    apply H; reflexivity.
  - destruct (default_passes_its_own_sanitize arith (VBool true) VUndefined)
      as (_ & H & _).
    apply H; reflexivity.
  - destruct (default_passes_its_own_sanitize arith (VStr "hello") VUndefined)
      as (_ & _ & H).
    apply H; reflexivity.
Defined.

Lemma validate_range_ok range :
  validate_range range = Ok tt ->
  exists lo hi, range = VArr [VNum lo; VNum hi] /\ num_lt lo hi = true.
Proof.
  unfold validate_range.
  destruct range as [| | | | | |items|]; try discriminate.
  destruct items as [|a [|b [|c rest]]]; try discriminate.
  cbn [List.length Nat.eqb negb forallb].
  destruct a as [| | |lo| | | |]; try discriminate.
  destruct b as [| | |hi| | | |];
    try (destruct (isNaN lo); discriminate).
  destruct (isNaN lo) eqn:E1; cbn [negb andb]; [discriminate|].
  destruct (isNaN hi) eqn:E2; cbn [negb andb]; [discriminate|].
  unfold num_ge. rewrite E1, E2. cbn [negb andb].
  destruct (num_lt lo hi) eqn:E; cbn [negb]; [|discriminate].
  intros _. exists lo, hi. split; [reflexivity | exact E].
Qed.

(** In a development build a config that [number] returns for [opts]
    with a [range] has a range of two numbers, neither of them NaN,
    the first smaller than the second. *)
Theorem number_range_is_ordered call d opts cfg :
  number call development d opts = Ok cfg ->
  hasOwnProperty opts "range" = true ->
  exists lo hi,
    number_range cfg = VArr [VNum lo; VNum hi] /\
    isNaN lo = false /\ isNaN hi = false /\
    num_lt lo hi = true.
Proof.
  intros H Hr. pose proof (number_validated _ _ _ _ H) as Hv.
  unfold validate_number in Hv. cbn [checked] in Hv.
  assert (Hc := validateCommonOpts_object opts Hr).
  destruct (validateCommonOpts development _ opts) as [[]|e] eqn:Ec;
    [|discriminate].
  specialize (Hc _ Ec). cbn [bind] in Hv.
  destruct (match d with VNum n => _ | _ => _ end) as [[]|e]; [|discriminate].
  cbn [bind] in Hv.
  assert (Hg : type_tag_eqb (typeof opts) TObject && negb (is_null opts) = true).
  { rewrite andb_comm. exact Hc. }
  rewrite Hg, Hr in Hv.
  destruct (validate_range (get_prop opts "range")) as [[]|e] eqn:Ev;
    [|cbn [bind] in Hv; discriminate Hv].
  destruct (validate_range_ok _ Ev) as (lo & hi & Hrange & Hlt).
  exists lo, hi.
  assert (Hcfg : number_range cfg = get_prop opts "range").
  { unfold number in H.
    destruct (validate_number development d opts); [|discriminate].
    cbn [bind] in H. injection H as <-. cbn [number_range].
    unfold spread_over, get_prop.
    assert (Ht : truthy opts = true) by (destruct opts; try discriminate Hc; reflexivity).
    rewrite Ht. unfold hasOwnProperty, hasOwn in Hr.
    destruct (lookup "range" (own_entries opts)); [reflexivity | discriminate]. }
  rewrite Hcfg, Hrange. split; [reflexivity|].
  destruct lo, hi; try discriminate Hlt; repeat split; try reflexivity;
    exact Hlt.
Qed.

Lemma number_range_is_ordered_witness :
  exists cfg,
    number arith development (VNum (Fin 0))
           (VObj [("range", VArr [VNum (Fin 0); VNum (Fin 10)])]) = Ok cfg /\
    hasOwnProperty (VObj [("range", VArr [VNum (Fin 0); VNum (Fin 10)])]) "range"
      = true /\
    number_range cfg = VArr [VNum (Fin 0); VNum (Fin 10)] /\
    (exists e, number arith development (VNum (Fin 0))
                      (VObj [("range", VArr [VNum (Fin 10); VNum (Fin 0)])])
               = Throw e).
Proof.
  eexists. split; [reflexivity|]. split; [reflexivity|]. split.
  - match goal with
    | |- number_range ?c = _ =>
        destruct (number_range_is_ordered arith (VNum (Fin 0))
                    (VObj [("range", VArr [VNum (Fin 0); VNum (Fin 10)])]) c
                    eq_refl eq_refl) as (lo & hi & H & _)
    end.
    reflexivity.
  - eexists. reflexivity.
Defined.

Lemma development_checks_default_witness :
  (forall z, VStr "7" <> VNum (Fin z)) /\
  (exists e, number arith development (VStr "7") VUndefined = Throw e) /\
  (exists e, boolean development (VNum (Fin 1)) VUndefined = Throw e) /\
  (exists e, string_ arith development VNull VUndefined = Throw e).
Proof.
  assert (H : forall z, VStr "7" <> VNum (Fin z)) by (intros z Hz; discriminate Hz).
  split; [exact H|].
  destruct (PropTypesFacts.development_checks_default arith VUndefined)
    as (H1 & H2 & H3).
  split; [exact (H1 (VStr "7") H)|].
  split; [apply H2; intros b Hb; discriminate Hb|].
  apply H3; intros s Hs; discriminate Hs.
Defined.

(** ** stringLiteral *)

(** The [sanitize] of a config of [stringLiteral] accepts exactly the
    strings that are keys of the [options] of the config, and returns
    them as they are; for every other value it returns [undefined]. *)
Theorem stringLiteral_accepts_its_options env d options_ opts cfg v :
  stringLiteral env d (VObj options_) opts = Ok cfg ->
  NoDup (own_keys options_) ->
  sanitize cfg v =
  match v with
  | VStr s => if hasOwn (options cfg) s then Ok v else Ok VUndefined
  | _ => Ok VUndefined
  end.
Proof.
  unfold stringLiteral. intro H. injection H as <-. intro Hnd.
  cbn [sanitize options]. destruct v; try reflexivity.
  unfold hasOwnProperty, hasOwn. cbn [own_entries].
  rewrite (lookup_spread_into s [] (VObj options_) Hnd). cbn [own_entries lookup].
  destruct (lookup s options_); reflexivity.
Qed.

Lemma stringLiteral_accepts_its_options_witness :
  exists cfg,
    stringLiteral development (VStr "r")
                  (VObj [("r", VStr "Red"); ("g", VStr "Green")]) VUndefined
      = Ok cfg /\
    NoDup (own_keys [("r", VStr "Red"); ("g", VStr "Green")]) /\
    sanitize cfg (VStr "g") = Ok (VStr "g") /\
    sanitize cfg (VStr "b") = Ok VUndefined.
Proof.
  assert (Hnd : NoDup (own_keys [("r", VStr "Red"); ("g", VStr "Green")])).
  { cbn. repeat constructor; cbn; intuition discriminate. }
  eexists. split; [reflexivity|]. split; [exact Hnd|].
  split;
    match goal with
    | |- sanitize ?c ?v = _ =>
        rewrite (stringLiteral_accepts_its_options development (VStr "r")
                   [("r", VStr "Red"); ("g", VStr "Green")] VUndefined c v
                   eq_refl Hnd)
    end; reflexivity.
Defined.

End PropTypesMore.
